(** * Bitcoin address tracker: synchronisation and balance derivation

    A shallow embedding of the Go packages [models], [repository],
    [clients], [services] and of the pagination part of [handlers],
    followed by the properties of the synchronisation engine.

    Conventions of the embedding.
    - Go's [int] and [int64] are 64-bit two's complement integers; they are
      values of [Z], and the one place where the program adds two of them
      ([CalculateBalance]) wraps with [wrap64].
    - [time.Time] is an instant on the time line, a [Z]; the timestamp of
      a transaction, which the driver stores as a text with the offset of
      its location and the listing orders by that text, keeps the offset
      beside the instant ([ZonedTime.t]).
    - [float64] is an IEEE 754 binary64 number ([spec_float] with precision
      53 and maximal exponent 1024).
    - A Go function returning [(T, error)] returns a [result T]; a method
      that writes to the database is a function from the database before
      to a result and the database after.
    - The SQLite database is the state: two tables kept in rowid order, the
      two AUTOINCREMENT counters and the connection's foreign-key setting.
      The errors of the model are those the SQL statements themselves
      produce (no row, constraint violation, integer overflow in SUM);
      failures of the disk or the driver are outside the model. *)

From Stdlib Require Import ZArith List String Bool Lia Permutation Sorted.
From Stdlib Require Import SpecFloat.
Import ListNotations.
Open Scope string_scope.
Open Scope Z_scope.

(** ** Machine numbers *)

Definition min_int64 : Z := - 2 ^ 63.
Definition max_int64 : Z := 2 ^ 63 - 1.

Definition in_int64 (z : Z) : Prop := min_int64 <= z <= max_int64.

Definition in_int64b (z : Z) : bool := (min_int64 <=? z) && (z <=? max_int64).

(** Two's complement wrap-around of int64 arithmetic. *)
Definition wrap64 (z : Z) : Z := (z + 2 ^ 63) mod 2 ^ 64 - 2 ^ 63.

Definition float64 : Type := spec_float.

(** The conversion [float64(x)] of an int64: round to nearest, ties to even. *)
Definition float64_of_int64 (z : Z) : float64 := binary_normalize 53 1024 z 0 false.

Definition float64_div (x y : float64) : float64 := SFdiv 53 1024 x y.

Definition float64_zero : float64 := S754_zero false.

(** ** Package models *)

Definition Time : Type := Z.

(** A [time.Time] with its location: the instant, in nanoseconds since
    the epoch, and the offset of the location, in seconds east of UTC. *)
Module ZonedTime.
Record t : Type := Build {
  Instant : Time;
  Offset : Z
}.
End ZonedTime.

(** The time in UTC at an instant; a bare instant reads as this. *)
Definition UTC (instant : Z) : ZonedTime.t := ZonedTime.Build instant 0.

Coercion UTC : Z >-> ZonedTime.t.

Module Transaction.
Record t : Type := Build {
  ID : Z;
  Hash : string;
  Address : string;
  Amount : Z;          (* int64, satoshis *)
  Confirmations : Z;
  BlockHeight : Z;
  Timestamp : ZonedTime.t;
  Type_ : string       (* "sent" or "received" *)
}.
End Transaction.

Module Address.
Record t : Type := Build {
  ID : Z;
  Address : string;
  Label : string;
  CreatedAt : Time;
  LastSynced : option Time   (* *time.Time, nil until the first sync *)
}.
End Address.

Module Balance.
Record t : Type := Build {
  Address : string;
  ConfirmedBalance : Z;
  UnconfirmedBalance : Z;
  TotalBalance : Z;
  BalanceBTC : float64
}.
End Balance.

Module AddressWithBalance.
Record t : Type := Build {
  Address : Address.t;       (* the embedded struct *)
  Balance : Balance.t
}.
End AddressWithBalance.

(** ** Errors

    The program builds its errors with [fmt.Errorf]; each constructor is one
    of its message formats, and [Wrap] is a format ending in [": %w"]. *)

Inductive sqlite_error : Type :=
| ConstraintUnique
| ConstraintForeignKey
| IntegerOverflow.

Inductive error : Type :=
| SqlError (e : sqlite_error)
| HttpError                               (* httpClient.Get failed *)
| DecodeError                             (* the JSON decoder failed *)
| ApiStatus (status : Z)                  (* "API request failed with status: %d" *)
| AddressNotFound (address : string)      (* "address not found: %s" *)
| InvalidAddress (address : string)       (* "invalid Bitcoin address: %s" *)
| AlreadyTracked (address : string)       (* "address already being tracked: %s" *)
| SyncCompletedWithErrors (n : Z)         (* "sync completed with %d errors" *)
| Wrap (context : string) (cause : error) (* "<context>: %w" *).

Inductive result (A : Type) : Type :=
| Ok (a : A)
| Err (e : error).
Arguments Ok {A} a.
Arguments Err {A} e.

Definition is_ok {A} (r : result A) : bool :=
  match r with Ok _ => true | Err _ => false end.

(** [errors.Unwrap] down to the innermost cause. *)
Fixpoint root_cause (e : error) : error :=
  match e with
  | Wrap _ cause => root_cause cause
  | _ => e
  end.

(** The spec's NotFoundError: an error whose cause is "address not found". *)
Definition is_not_found (address : string) (e : error) : Prop :=
  root_cause e = AddressNotFound address.

(** Adds context to a failure, as [fmt.Errorf("<context>: %w", err)] does. *)
Definition wrap_err {A} (context : string) (r : result A) : result A :=
  match r with
  | Ok a => Ok a
  | Err e => Err (Wrap context e)
  end.

(** ** The SQL fragments the queries use *)

(** Rows in the order of [ORDER BY key DESC]: the sort is stable, rows
    with equal keys stay in rowid order. *)
Fixpoint insert_desc {A} (key : A -> Z) (x : A) (l : list A) : list A :=
  match l with
  | [] => [x]
  | y :: l' => if key y <=? key x then x :: y :: l' else y :: insert_desc key x l'
  end.

Definition order_by_desc {A} (key : A -> Z) (rows : list A) : list A :=
  fold_right (insert_desc key) [] rows.

(** The driver binds a [time.Time] as the text of its layout
    "2006-01-02 15:04:05.999999999-07:00": the clock reading in the
    time's own location, then the offset of the location in hours and
    minutes.  SQLite compares such texts byte by byte; for the years and
    the offsets of RFC 3339 (0000 to 9999, under 24 hours) that is the
    order of the clock readings and, between equal ones, of the offset
    texts, "+hh:mm" before "-hh:mm" and each by its digits. *)
Definition offset_text_order (offset : Z) : Z :=
  let minutes := Z.quot offset 60 in
  if 0 <=? minutes then minutes else 1440 + Z.abs minutes.

Definition timestamp_text_order (t : ZonedTime.t) : Z :=
  (ZonedTime.Instant t + ZonedTime.Offset t * 1000000000) * 2880
  + offset_text_order (ZonedTime.Offset t).

(** [LIMIT limit OFFSET offset]: SQLite reads a negative OFFSET as 0 and a
    negative LIMIT as no limit. *)
Definition limit_offset {A} (limit offset : Z) (rows : list A) : list A :=
  let rest := skipn (Z.to_nat offset) rows in
  if limit <? 0 then rest else firstn (Z.to_nat limit) rest.

(** [SUM] over integers, accumulated in 64 bits in scan order; SQLite
    raises "integer overflow" when the accumulator leaves the range. *)
Fixpoint sum_from (acc : Z) (values : list Z) : option Z :=
  match values with
  | [] => Some acc
  | v :: rest =>
      if in_int64b (acc + v) then sum_from (acc + v) rest else None
  end.

(** [COALESCE(SUM(amount), 0)]: the sum of no row is NULL, hence 0. *)
Definition coalesce_sum (values : list Z) : result Z :=
  match sum_from 0 values with
  | Some s => Ok s
  | None => Err (SqlError IntegerOverflow)
  end.

(** ** Package repository: the SQLite store *)

Module repository.

(** The database behind [SQLiteRepository.db].  [foreign_keys] is the
    connection's [PRAGMA foreign_keys]: SQLite checks and cascades
    FOREIGN KEY clauses only on a connection where it is on. *)
Record SQLiteRepository : Type := Build {
  foreign_keys : bool;
  addresses : list Address.t;
  addresses_seq : Z;              (* AUTOINCREMENT counter of addresses.id *)
  transactions : list Transaction.t;
  transactions_seq : Z            (* AUTOINCREMENT counter of transactions.id *)
}.

(** A method with a side effect on the database. *)
Definition M (A : Type) : Type := SQLiteRepository -> result A * SQLiteRepository.

Definition ret {A} (a : A) : M A := fun r => (Ok a, r).

Definition fail {A} (e : error) : M A := fun r => (Err e, r).

Definition bind {A B} (c : M A) (k : A -> M B) : M B :=
  fun r =>
    match c r with
    | (Ok a, r') => k a r'
    | (Err e, r') => (Err e, r')
    end.

(** A read-only query leaves the database as it is. *)
Definition query {A} (q : SQLiteRepository -> result A) : M A := fun r => (q r, r).

(** [if err != nil { return fmt.Errorf("<context>: %w", err) }] *)
Definition annotate {A} (context : string) (c : M A) : M A :=
  fun r => (wrap_err context (fst (c r)), snd (c r)).

Declare Scope repo_scope.
Delimit Scope repo_scope with repo.
Notation "x <- c ;; k" := (bind c (fun x => k))
  (at level 61, c at next level, right associativity) : repo_scope.
Notation "c ;;; k" := (bind c (fun _ => k))
  (at level 61, right associativity) : repo_scope.

(** [sql.Open("sqlite3", dbPath)] with a bare file path and [createTables]
    on a new file.  The data source name carries no [_foreign_keys]
    option and no statement of the program issues the pragma, so the
    connection keeps SQLite's default: foreign keys are not enforced. *)
Definition NewSQLiteRepository : SQLiteRepository :=
  Build false [] 0 [] 0.

(** The same empty schema on a connection with the given pragma. *)
Definition connect (foreign_keys : bool) : SQLiteRepository :=
  Build foreign_keys [] 0 [] 0.

Definition is_address (address : string) (a : Address.t) : bool :=
  (Address.Address a =? address)%string.

Definition of_address (address : string) (t : Transaction.t) : bool :=
  (Transaction.Address t =? address)%string.

(** The columns of [UNIQUE(hash, address)]. *)
Definition has_key (hash address : string) (t : Transaction.t) : bool :=
  (Transaction.Hash t =? hash)%string && (Transaction.Address t =? address)%string.

Definition has_address (address : string) (r : SQLiteRepository) : bool :=
  existsb (is_address address) (addresses r).

(** [INSERT INTO addresses (address, label) VALUES (?, ?) RETURNING id, created_at];
    [address] is UNIQUE and [created_at] defaults to the current time. *)
Definition AddAddress (address label : string) (created_at : Time) : M Address.t :=
  fun r =>
    if has_address address r then
      (Err (Wrap "failed to add address" (SqlError ConstraintUnique)), r)
    else
      let id := addresses_seq r + 1 in
      let addr := Address.Build id address label created_at None in
      (Ok addr,
       Build (foreign_keys r) (addresses r ++ [addr]) id
             (transactions r) (transactions_seq r)).

(** [DELETE FROM addresses WHERE address = ?].  The rows of [transactions]
    that reference a deleted address go with it (ON DELETE CASCADE) when
    the connection enforces foreign keys. *)
Definition delete_address (address : string) (r : SQLiteRepository)
  : Z * SQLiteRepository :=
  let rowsAffected := Z.of_nat (List.length (filter (is_address address) (addresses r))) in
  let kept := filter (fun a => negb (is_address address a)) (addresses r) in
  let children :=
    if foreign_keys r && (0 <? rowsAffected)
    then filter (fun t => negb (of_address address t)) (transactions r)
    else transactions r in
  (rowsAffected,
   Build (foreign_keys r) kept (addresses_seq r) children (transactions_seq r)).

Definition RemoveAddress (address : string) : M unit :=
  fun r =>
    let (rowsAffected, r') := delete_address address r in
    if rowsAffected =? 0 then (Err (AddressNotFound address), r')
    else (Ok tt, r').

(** [SELECT ... FROM addresses WHERE address = ?], one row scanned. *)
Definition GetAddress (address : string) (r : SQLiteRepository) : result Address.t :=
  match find (is_address address) (addresses r) with
  | Some addr => Ok addr
  | None => Err (AddressNotFound address)
  end.

(** [SELECT ... FROM addresses ORDER BY created_at DESC] *)
Definition GetAllAddresses (r : SQLiteRepository) : result (list Address.t) :=
  Ok (order_by_desc Address.CreatedAt (addresses r)).

Definition set_last_synced (address : string) (syncTime : Time) (a : Address.t)
  : Address.t :=
  if is_address address a
  then Address.Build (Address.ID a) (Address.Address a) (Address.Label a)
                     (Address.CreatedAt a) (Some syncTime)
  else a.

(** [UPDATE addresses SET last_synced = ? WHERE address = ?]; updating no
    row is not an error. *)
Definition UpdateLastSynced (address : string) (syncTime : Time) : M unit :=
  fun r =>
    (Ok tt,
     Build (foreign_keys r) (map (set_last_synced address syncTime) (addresses r))
           (addresses_seq r) (transactions r) (transactions_seq r)).

Definition with_id (id : Z) (tx : Transaction.t) : Transaction.t :=
  Transaction.Build id (Transaction.Hash tx) (Transaction.Address tx)
    (Transaction.Amount tx) (Transaction.Confirmations tx)
    (Transaction.BlockHeight tx) (Transaction.Timestamp tx) (Transaction.Type_ tx).

(** [INSERT OR REPLACE INTO transactions (hash, address, ...) VALUES (...)]:
    a row in conflict on [UNIQUE(hash, address)] is deleted, then the new
    row is inserted under a fresh id.  On a connection that enforces
    foreign keys the address has to be a row of [addresses]. *)
Definition SaveTransaction (tx : Transaction.t) : M unit :=
  fun r =>
    if foreign_keys r && negb (has_address (Transaction.Address tx) r) then
      (Err (Wrap "failed to save transaction" (SqlError ConstraintForeignKey)), r)
    else
      let id := transactions_seq r + 1 in
      let others :=
        filter (fun t => negb (has_key (Transaction.Hash tx) (Transaction.Address tx) t))
               (transactions r) in
      (Ok tt,
       Build (foreign_keys r) (addresses r) (addresses_seq r)
             (others ++ [with_id id tx]) id).

(** The column [timestamp] of a row, as [ORDER BY] compares it. *)
Definition timestamp_column (t : Transaction.t) : Z :=
  timestamp_text_order (Transaction.Timestamp t).

(** [SELECT ... FROM transactions WHERE address = ?
     ORDER BY timestamp DESC LIMIT ? OFFSET ?] *)
Definition GetTransactionsByAddress (address : string) (limit offset : Z)
           (r : SQLiteRepository) : result (list Transaction.t) :=
  Ok (limit_offset limit offset
        (order_by_desc timestamp_column
           (filter (of_address address) (transactions r)))).

(** [SELECT COUNT( * ) FROM transactions WHERE hash = ? AND address = ?] *)
Definition TransactionExists (hash address : string) (r : SQLiteRepository)
  : result bool :=
  let count := Z.of_nat (List.length (filter (has_key hash address) (transactions r))) in
  Ok (0 <? count).

Definition confirmed_of (address : string) (t : Transaction.t) : bool :=
  of_address address t && (1 <=? Transaction.Confirmations t).

Definition unconfirmed_of (address : string) (t : Transaction.t) : bool :=
  of_address address t && (Transaction.Confirmations t =? 0).

(** Two aggregate queries, then the total in int64 and its value in BTC. *)
Definition CalculateBalance (address : string) (r : SQLiteRepository)
  : result Balance.t :=
  match coalesce_sum
          (map Transaction.Amount (filter (confirmed_of address) (transactions r))) with
  | Err e => Err (Wrap "failed to calculate confirmed balance" e)
  | Ok confirmedBalance =>
      match coalesce_sum
              (map Transaction.Amount
                   (filter (unconfirmed_of address) (transactions r))) with
      | Err e => Err (Wrap "failed to calculate unconfirmed balance" e)
      | Ok unconfirmedBalance =>
          let totalBalance := wrap64 (confirmedBalance + unconfirmedBalance) in
          let balanceBTC :=
            float64_div (float64_of_int64 totalBalance) (float64_of_int64 100000000) in
          Ok (Balance.Build address confirmedBalance unconfirmedBalance
                            totalBalance balanceBTC)
      end
  end.

Definition GetBalance (address : string) (r : SQLiteRepository) : result Balance.t :=
  CalculateBalance address r.

End repository.

(** ** Package clients: the Blockchair adapter *)

Module BlockchairTransaction.
Record t : Type := Build {
  BlockID : Z;
  Hash : string;
  Time : ZonedTime.t;
  BalanceChange : Z;
  InputTotalValue : Z;
  OutputTotalValue : Z
}.
End BlockchairTransaction.

Module clients.

(** What one HTTP GET of the dashboard URL comes to: no response, or a
    status code with the transactions decoded from the body ([None] when
    the decoder rejects the body). *)
Inductive http_result : Type :=
| NoResponse
| Response (StatusCode : Z) (transactions : option (list BlockchairTransaction.t)).

(** The interface [BitcoinClient], as far as the service calls it. *)
Record BitcoinClient : Type := Build {
  GetTransactions : string -> Z -> result (list Transaction.t);
  IsValidAddress : string -> bool
}.

(** The body of the loop of [BlockchairClient.GetTransactions]. *)
Definition classify (address : string) (tx : BlockchairTransaction.t) : Transaction.t :=
  let txType := if BlockchairTransaction.BalanceChange tx <? 0 then "sent" else "received" in
  let confirmations := if BlockchairTransaction.BlockID tx =? 0 then 0 else 6 in
  Transaction.Build 0 (BlockchairTransaction.Hash tx) address
    (BlockchairTransaction.BalanceChange tx) confirmations
    (BlockchairTransaction.BlockID tx) (BlockchairTransaction.Time tx) txType.

Section Blockchair.
(** The upstream service: the answer to a GET for an address and a limit. *)
Variable httpGet : string -> Z -> http_result.

Definition BlockchairClient_GetTransactions (address : string) (limit : Z)
  : result (list Transaction.t) :=
  match httpGet address limit with
  | NoResponse => Err (Wrap "failed to fetch transactions" HttpError)
  | Response StatusCode body =>
      if negb (StatusCode =? 200) then Err (ApiStatus StatusCode)
      else
        match body with
        | None => Err (Wrap "failed to decode response" DecodeError)
        | Some transactions => Ok (map (classify address) transactions)
        end
  end.

Definition BlockchairClient_IsValidAddress (address : string) : bool :=
  let len := Z.of_nat (String.length address) in
  if (len <? 26) || (62 <? len) then false
  else existsb (fun prefix => String.prefix prefix address) ["1"; "3"; "bc1"].

Definition BlockchairClient : BitcoinClient :=
  Build BlockchairClient_GetTransactions BlockchairClient_IsValidAddress.
End Blockchair.

End clients.

(** ** Package services *)

Module services.
Import repository.
Local Open Scope repo_scope.

Section BitcoinService.
(** The field [client] of the service; its field [repo] is the
    database the methods run on. *)
Variable client : clients.BitcoinClient.

(** The loop of [SyncAddress] over the fetched transactions. *)
Fixpoint save_new (address : string) (transactions : list Transaction.t)
         (savedCount : Z) : M Z :=
  match transactions with
  | [] => ret savedCount
  | tx :: rest =>
      exists_ <- annotate "failed to check transaction existence"
                   (query (repository.TransactionExists (Transaction.Hash tx) address)) ;;
      if negb exists_ then
        annotate "failed to save transaction" (repository.SaveTransaction tx) ;;;
        save_new address rest (savedCount + 1)
      else
        save_new address rest savedCount
  end.

(** [now] is the reading of [time.Now()]; the value returned on success
    is the [savedCount] the method prints. *)
Definition SyncAddress (address : string) (now : Time) : M Z :=
  annotate "address not being tracked" (query (repository.GetAddress address)) ;;;
  transactions <- annotate "failed to fetch transactions from API"
                    (query (fun _ => clients.GetTransactions client address 100)) ;;
  savedCount <- save_new address transactions 0 ;;
  annotate "failed to update last synced time"
    (repository.UpdateLastSynced address now) ;;;
  ret savedCount.

(** The loop of [SyncAllAddresses]; [now] gives the reading of the
    clock made while an address is synchronised. *)
Fixpoint sync_each (now : string -> Time) (addresses : list Address.t)
         (errors : list error) : M (list error) :=
  match addresses with
  | [] => ret errors
  | addr :: rest =>
      fun r =>
        match SyncAddress (Address.Address addr) (now (Address.Address addr)) r with
        | (Err err, r') =>
            sync_each now rest
              (errors ++ [Wrap ("sync failed for " ++ Address.Address addr) err]) r'
        | (Ok _, r') => sync_each now rest errors r'
        end
  end.

Definition SyncAllAddresses (now : string -> Time) : M unit :=
  addresses <- annotate "failed to get addresses for sync"
                 (query repository.GetAllAddresses) ;;
  errors <- sync_each now addresses [] ;;
  if 0 <? Z.of_nat (List.length errors)
  then fail (SyncCompletedWithErrors (Z.of_nat (List.length errors)))
  else ret tt.

(** [created_at] is the database's CURRENT_TIMESTAMP at the insert, [now]
    the clock of the initial synchronisation, whose failure is only
    printed. *)
Definition AddAddress (address label : string) (created_at now : Time) : M Address.t :=
  if negb (clients.IsValidAddress client address) then fail (InvalidAddress address)
  else
    fun r =>
      match repository.GetAddress address r with
      | Ok _ => (Err (AlreadyTracked address), r)
      | Err _ =>
          match repository.AddAddress address label created_at r with
          | (Err e, r') => (Err (Wrap "failed to add address" e), r')
          | (Ok addr, r') => (Ok addr, snd (SyncAddress address now r'))
          end
      end.

Definition RemoveAddress (address : string) : M unit :=
  repository.RemoveAddress address.

Definition zero_balance (address : string) : Balance.t :=
  Balance.Build address 0 0 0 float64_zero.

(** One turn of the loop of [GetAllAddresses]. *)
Definition with_balance (r : SQLiteRepository) (addr : Address.t)
  : AddressWithBalance.t :=
  let balance :=
    match repository.GetBalance (Address.Address addr) r with
    | Ok balance => balance
    | Err _ => zero_balance (Address.Address addr)
    end in
  AddressWithBalance.Build addr balance.

Definition GetAllAddresses (r : SQLiteRepository) : result (list AddressWithBalance.t) :=
  match repository.GetAllAddresses r with
  | Err e => Err (Wrap "failed to get addresses" e)
  | Ok addresses => Ok (map (with_balance r) addresses)
  end.

Definition GetAddress (address : string) (r : SQLiteRepository)
  : result AddressWithBalance.t :=
  match repository.GetAddress address r with
  | Err e => Err (Wrap "address not found" e)
  | Ok addr =>
      match repository.GetBalance address r with
      | Err e => Err (Wrap "failed to get balance" e)
      | Ok balance => Ok (AddressWithBalance.Build addr balance)
      end
  end.

Definition GetBalance (address : string) (r : SQLiteRepository) : result Balance.t :=
  match repository.GetAddress address r with
  | Err e => Err (Wrap "address not being tracked" e)
  | Ok _ => repository.GetBalance address r
  end.

Definition GetTransactions (address : string) (limit offset : Z)
           (r : SQLiteRepository) : result (list Transaction.t) :=
  match repository.GetAddress address r with
  | Err e => Err (Wrap "address not being tracked" e)
  | Ok _ =>
      let limit := if limit <=? 0 then 50 else limit in
      let limit := if 100 <? limit then 100 else limit in
      repository.GetTransactionsByAddress address limit offset r
  end.

End BitcoinService.
End services.

(** ** Package handlers: the pagination of GET /addresses/{address}/transactions *)

Module handlers.

(** A query parameter after [strconv.Atoi]: [None] when the parameter is
    absent or is not a number.  A limit that is not positive and an
    offset that is negative are dropped for the defaults 50 and 0. *)
Definition pagination (limitParam offsetParam : option Z) : Z * Z :=
  let limit :=
    match limitParam with
    | Some l => if 0 <? l then l else 50
    | None => 50
    end in
  let offset :=
    match offsetParam with
    | Some o => if 0 <=? o then o else 0
    | None => 0
    end in
  (limit, offset).

Definition GetTransactions (address : string)
           (limitParam offsetParam : option Z) (r : repository.SQLiteRepository)
  : result (list Transaction.t) :=
  let (limit, offset) := pagination limitParam offsetParam in
  services.GetTransactions address limit offset r.

End handlers.

(** ** The notions the properties are stated with *)

Import repository.

(** The dedup key of a stored record. *)
Definition key (t : Transaction.t) : string * string :=
  (Transaction.Hash t, Transaction.Address t).

(** No two rows of [transactions] share (hash, address). *)
Definition unique_keys (r : SQLiteRepository) : Prop :=
  NoDup (map key (transactions r)).

(** The stored records of an address, in rowid order. *)
Definition records_of (address : string) (r : SQLiteRepository) : list Transaction.t :=
  filter (of_address address) (transactions r).

(** The stored record of a dedup key, if there is one. *)
Definition stored (hash address : string) (r : SQLiteRepository) : option Transaction.t :=
  find (has_key hash address) (transactions r).

Definition tracked (address : string) (r : SQLiteRepository) : Prop :=
  has_address address r = true.

(** The watermark of an address. *)
Definition last_synced (address : string) (r : SQLiteRepository) : option Time :=
  match find (is_address address) (addresses r) with
  | Some a => Address.LastSynced a
  | None => None
  end.

(** Sums over the integers, with no machine range. *)
Definition total (values : list Z) : Z := fold_right Z.add 0 values.

Definition magnitude (values : list Z) : Z :=
  fold_right (fun v s => Z.abs v + s) 0 values.

(** The sum of the amounts of the records of [address] that satisfy [p],
    recomputed row by row. *)
Fixpoint recompute (address : string) (p : Z -> bool) (rows : list Transaction.t) : Z :=
  match rows with
  | [] => 0
  | t :: rows' =>
      if (Transaction.Address t =? address)%string && p (Transaction.Confirmations t)
      then Transaction.Amount t + recompute address p rows'
      else recompute address p rows'
  end.

Definition descending {A} (f : A -> Z) (l : list A) : Prop :=
  StronglySorted (fun a b => f b <= f a) l.

(** The instant of the timestamp of a record. *)
Definition instant_of (t : Transaction.t) : Z :=
  ZonedTime.Instant (Transaction.Timestamp t).

(** The timestamps of the records all have the offset [offset]. *)
Definition same_offset (offset : Z) (rows : list Transaction.t) : Prop :=
  Forall (fun t => ZonedTime.Offset (Transaction.Timestamp t) = offset) rows.

(** The limit and the offset a listing ends up with. *)
Definition effective_limit (limit : Z) : Z :=
  if limit <=? 0 then 50 else Z.min limit 100.

Definition effective_offset (offset : Z) : Z := Z.max 0 offset.

(** The rows [offset], [offset + 1], ..., at most [limit] of them. *)
Definition window {A} (limit offset : Z) (rows : list A) : list A :=
  firstn (Z.to_nat limit) (skipn (Z.to_nat offset) rows).

(** One SQL statement that writes; each runs atomically, so a run of the
    program, with the periodic and the manual synchronisation interleaved
    in any way, is a sequence of these. *)
Inductive step : SQLiteRepository -> SQLiteRepository -> Prop :=
| step_AddAddress address label created_at r :
    step r (snd (repository.AddAddress address label created_at r))
| step_RemoveAddress address r :
    step r (snd (repository.RemoveAddress address r))
| step_UpdateLastSynced address syncTime r :
    step r (snd (repository.UpdateLastSynced address syncTime r))
| step_SaveTransaction tx r :
    step r (snd (repository.SaveTransaction tx r)).

Inductive steps : SQLiteRepository -> SQLiteRepository -> Prop :=
| steps_refl r : steps r r
| steps_cons r r' r'' : step r r' -> steps r' r'' -> steps r r''.

(** The states of the store: from the empty schema, on a connection with
    either setting of the pragma, by statements that write. *)
Definition reachable (r : SQLiteRepository) : Prop :=
  exists foreign_keys, steps (connect foreign_keys) r.

(** The methods of the service, each a run on the database. *)
Inductive operation : Type :=
| OpAddAddress (address label : string) (created_at now : Time)
| OpRemoveAddress (address : string)
| OpSyncAddress (address : string) (now : Time)
| OpSyncAllAddresses (now : string -> Time).

Definition run (client : clients.BitcoinClient) (op : operation) (r : SQLiteRepository)
  : SQLiteRepository :=
  match op with
  | OpAddAddress address label created_at now =>
      snd (services.AddAddress client address label created_at now r)
  | OpRemoveAddress address => snd (services.RemoveAddress address r)
  | OpSyncAddress address now => snd (services.SyncAddress client address now r)
  | OpSyncAllAddresses now => snd (services.SyncAllAddresses client now r)
  end.

(** [SyncAddress] on each address in turn, each from the database the one
    before left, with the results in the same order. *)
Inductive synced_in_turn (client : clients.BitcoinClient) (now : string -> Time)
  : list Address.t -> SQLiteRepository -> list (result Z) -> SQLiteRepository -> Prop :=
| turn_nil r : synced_in_turn client now [] r [] r
| turn_cons addr rest r res r' results r'' :
    services.SyncAddress client (Address.Address addr) (now (Address.Address addr)) r
      = (res, r') ->
    synced_in_turn client now rest r' results r'' ->
    synced_in_turn client now (addr :: rest) r (res :: results) r''.

Definition failures {A} (results : list (result A)) : Z :=
  Z.of_nat (List.length (filter (fun res => negb (is_ok res)) results)).

(** ** Sample data: addresses of the README, events of the scenarios *)

Definition addrA : string := "bc1q0sg9rdst255gtldsmcf8rk0764avqy2h2ksqs5".

Definition addrB : string := "3E8ociqZa9mZUSwGdSmAEMAoAxBK3FNDcd".

Definition event (hash : string) (delta blockId : Z) (time : ZonedTime.t)
  : BlockchairTransaction.t :=
  BlockchairTransaction.Build blockId hash time delta 0 0.

(** h1: +500000000 at block 800000, h2: -200000000 at block 800010,
    h3: +100000000 in no block. *)
Definition three_events (t1 t2 t3 : ZonedTime.t) : list BlockchairTransaction.t :=
  [event "h1" 500000000 800000 t1;
   event "h2" (-200000000) 800010 t2;
   event "h3" 100000000 0 t3].

(** An upstream that answers every request with status 200 and [events]. *)
Definition answering (events : list BlockchairTransaction.t)
  : string -> Z -> clients.http_result :=
  fun _ _ => clients.Response 200 (Some events).

(** An upstream that answers for one address and is out of reach for the rest. *)
Definition answering_for (address : string) (events : list BlockchairTransaction.t)
  : string -> Z -> clients.http_result :=
  fun a _ => if (a =? address)%string then clients.Response 200 (Some events)
             else clients.NoResponse.

Definition out_of_reach : string -> Z -> clients.http_result :=
  fun _ _ => clients.NoResponse.

(** A new database in which [address] was registered at time 0. *)
Definition tracking (address : string) : SQLiteRepository :=
  snd (repository.AddAddress address "" 0 NewSQLiteRepository).

(** [addrA] tracked, with h3 stored while it was in no block. *)
Definition h3_unconfirmed : SQLiteRepository :=
  snd (services.SyncAddress (clients.BlockchairClient (answering [event "h3" 100000000 0 30]))
         addrA 40 (tracking addrA)).

(** The upstream once h3 is in block 800020. *)
Definition h3_in_block : string -> Z -> clients.http_result :=
  answering [event "h3" 100000000 800020 30].

(** [addrA] tracked and synchronised once with the three events. *)
Definition synced_three : SQLiteRepository :=
  snd (services.SyncAddress (clients.BlockchairClient (answering (three_events 10 20 30)))
         addrA 40 (tracking addrA)).

(** An upstream with the three events for [addrA] and, for any other
    address, two receipts in blocks whose sum is 2^63. *)
Definition two_ledgers : string -> Z -> clients.http_result :=
  fun a _ =>
    if (a =? addrA)%string then clients.Response 200 (Some (three_events 10 20 30))
    else clients.Response 200 (Some [event "g1" max_int64 1 10; event "g2" 1 2 20]).

(** [addrA] and [addrB] registered and synchronised against [two_ledgers]. *)
Definition two_tracked : SQLiteRepository :=
  snd (services.AddAddress (clients.BlockchairClient two_ledgers) addrB "" 2 3
         (snd (services.AddAddress (clients.BlockchairClient two_ledgers) addrA "" 0 1
                 NewSQLiteRepository))).

(** [addrB] tracked, with 2^63 - 1 received in a block and 1 in no block. *)
Definition at_the_edge : SQLiteRepository :=
  snd (services.SyncAddress
         (clients.BlockchairClient (answering [event "g1" max_int64 1 10; event "g2" 1 0 20]))
         addrB 40 (tracking addrB)).

(** ** Package models: requests and responses of the API *)

Module AddAddressRequest.
Record t : Type := Build {
  Address : string;
  Label : string
}.
End AddAddressRequest.

Module APIResponse.

(** The values the handlers put into [Data] (an [interface{}]). *)
Inductive data : Type :=
| AddressData (address : Address.t)
| AddressesData (addresses : list AddressWithBalance.t)
| AddressWithBalanceData (address : AddressWithBalance.t)
| BalanceData (balance : Balance.t)
| TransactionsData (transactions : list Transaction.t)
| HealthData (fields : list (string * string)).

(** The text of [Error]: a literal of the handler or [err.Error()]. *)
Inductive text : Type :=
| Literal (s : string)
| ErrorText (e : error).

Record t : Type := Build {
  Success : bool;
  Data : option data;     (* nil when not set *)
  Error : text;           (* [Literal ""] when not set *)
  Message : string        (* "" when not set *)
}.

End APIResponse.

Module models.

Definition ErrorResponse (message : APIResponse.text) : APIResponse.t :=
  APIResponse.Build false None message "".

Definition SuccessResponse (data : APIResponse.data) : APIResponse.t :=
  APIResponse.Build true (Some data) (APIResponse.Literal "") "".

Definition MessageResponse (message : string) : APIResponse.t :=
  APIResponse.Build true None (APIResponse.Literal "") message.

End models.

(** ** Package handlers: the HTTP handlers and the routes of main *)

Module BitcoinHandler.

(** What a handler writes: the status code and the encoded body. *)
Definition Response : Type := (Z * APIResponse.t)%type.

(** A handler answers and may have changed the database. *)
Definition H : Type := SQLiteRepository -> Response * SQLiteRepository.

Definition writeSuccess (statusCode : Z) (data : APIResponse.data) : Response :=
  (statusCode, models.SuccessResponse data).

Definition writeError (statusCode : Z) (message : APIResponse.text) : Response :=
  (statusCode, models.ErrorResponse message).

Definition writeMessage (statusCode : Z) (message : string) : Response :=
  (statusCode, models.MessageResponse message).

Section Handler.
(** The client of the handler's service. *)
Variable client : clients.BitcoinClient.

(** [body] is the request body after the JSON decoder, [None] when the
    decoder fails. *)
Definition AddAddress (body : option AddAddressRequest.t) (created_at now : Time) : H :=
  fun r =>
    match body with
    | None => (writeError 400 (APIResponse.Literal "Invalid request body"), r)
    | Some req =>
        if (AddAddressRequest.Address req =? "")%string then
          (writeError 400 (APIResponse.Literal "Address is required"), r)
        else
          match services.AddAddress client (AddAddressRequest.Address req)
                  (AddAddressRequest.Label req) created_at now r with
          | (Err err, r') => (writeError 400 (APIResponse.ErrorText err), r')
          | (Ok address, r') => (writeSuccess 201 (APIResponse.AddressData address), r')
          end
    end.

Definition RemoveAddress (address : string) : H :=
  fun r =>
    if (address =? "")%string then
      (writeError 400 (APIResponse.Literal "Address parameter is required"), r)
    else
      match services.RemoveAddress address r with
      | (Err err, r') => (writeError 404 (APIResponse.ErrorText err), r')
      | (Ok _, r') => (writeMessage 200 "Address removed successfully", r')
      end.

Definition GetAllAddresses : H :=
  fun r =>
    match services.GetAllAddresses r with
    | Err err => (writeError 500 (APIResponse.ErrorText err), r)
    | Ok addresses => (writeSuccess 200 (APIResponse.AddressesData addresses), r)
    end.

Definition GetAddress (address : string) : H :=
  fun r =>
    if (address =? "")%string then
      (writeError 400 (APIResponse.Literal "Address parameter is required"), r)
    else
      match services.GetAddress address r with
      | Err err => (writeError 404 (APIResponse.ErrorText err), r)
      | Ok addressWithBalance =>
          (writeSuccess 200 (APIResponse.AddressWithBalanceData addressWithBalance), r)
      end.

Definition GetBalance (address : string) : H :=
  fun r =>
    if (address =? "")%string then
      (writeError 400 (APIResponse.Literal "Address parameter is required"), r)
    else
      match services.GetBalance address r with
      | Err err => (writeError 404 (APIResponse.ErrorText err), r)
      | Ok balance => (writeSuccess 200 (APIResponse.BalanceData balance), r)
      end.

(** The query parameters are given after [strconv.Atoi], as for
    [handlers.pagination]. *)
Definition GetTransactions (address : string) (limitParam offsetParam : option Z) : H :=
  fun r =>
    if (address =? "")%string then
      (writeError 400 (APIResponse.Literal "Address parameter is required"), r)
    else
      let (limit, offset) := handlers.pagination limitParam offsetParam in
      match services.GetTransactions address limit offset r with
      | Err err => (writeError 404 (APIResponse.ErrorText err), r)
      | Ok transactions =>
          (writeSuccess 200 (APIResponse.TransactionsData transactions), r)
      end.

Definition SyncAddress (address : string) (now : Time) : H :=
  fun r =>
    if (address =? "")%string then
      (writeError 400 (APIResponse.Literal "Address parameter is required"), r)
    else
      match services.SyncAddress client address now r with
      | (Err err, r') => (writeError 500 (APIResponse.ErrorText err), r')
      | (Ok _, r') => (writeMessage 200 "Address synchronized successfully", r')
      end.

Definition SyncAllAddresses (now : string -> Time) : H :=
  fun r =>
    match services.SyncAllAddresses client now r with
    | (Err err, r') => (writeError 500 (APIResponse.ErrorText err), r')
    | (Ok _, r') => (writeMessage 200 "All addresses synchronized successfully", r')
    end.

Definition HealthCheck : H :=
  fun r =>
    (writeSuccess 200
       (APIResponse.HealthData [("status", "healthy"); ("service", "bitcoin-tracker")]), r).

(** A request that [setupRoutes] routes to a handler, with what the
    handler reads of it and of the clock. *)
Inductive request : Type :=
| GET_health
| GET_addresses
| POST_addresses (body : option AddAddressRequest.t) (created_at now : Time)
| GET_address (address : string)
| DELETE_address (address : string)
| GET_balance (address : string)
| GET_transactions (address : string) (limitParam offsetParam : option Z)
| POST_sync_address (address : string) (now : Time)
| POST_sync (now : string -> Time).

Definition setupRoutes (req : request) : H :=
  match req with
  | GET_health => HealthCheck
  | GET_addresses => GetAllAddresses
  | POST_addresses body created_at now => AddAddress body created_at now
  | GET_address address => GetAddress address
  | DELETE_address address => RemoveAddress address
  | GET_balance address => GetBalance address
  | GET_transactions address limitParam offsetParam =>
      GetTransactions address limitParam offsetParam
  | POST_sync_address address now => SyncAddress address now
  | POST_sync now => SyncAllAddresses now
  end.

End Handler.
End BitcoinHandler.

(** ** Further notions *)

(** No two rows of [addresses] share the address. *)
Definition unique_addresses (r : SQLiteRepository) : Prop :=
  NoDup (map Address.Address (addresses r)).

(** The ids of the rows of both tables are distinct and none is above the
    counter of its table. *)
Definition ids_in_sequence (r : SQLiteRepository) : Prop :=
  NoDup (map Address.ID (addresses r)) /\
  Forall (fun a => Address.ID a <= addresses_seq r) (addresses r) /\
  NoDup (map Transaction.ID (transactions r)) /\
  Forall (fun t => Transaction.ID t <= transactions_seq r) (transactions r).

(** The states of the program: its database, opened by
    [NewSQLiteRepository], after any methods of the service, the upstream
    answering each of them in any way. *)
Inductive served : SQLiteRepository -> Prop :=
| served_new : served NewSQLiteRepository
| served_run httpGet op r :
    served r -> served (run (clients.BlockchairClient httpGet) op r).

(** A record as the adapter classifies events. *)
Definition well_classified (t : Transaction.t) : Prop :=
  (Transaction.Confirmations t = 0 \/ Transaction.Confirmations t = 6) /\
  (Transaction.Confirmations t = 0 <-> Transaction.BlockHeight t = 0) /\
  (Transaction.Type_ t = "sent" /\ Transaction.Amount t < 0 \/
   Transaction.Type_ t = "received" /\ 0 <= Transaction.Amount t).



(** The response has one of the five status codes of the handlers, is a
    success exactly on 200 and 201, and carries an error text exactly
    when it is not a success, and then no data and no message. *)
Definition coherent (resp : BitcoinHandler.Response) : Prop :=
  let (statusCode, body) := resp in
  In statusCode [200; 201; 400; 404; 500] /\
  (APIResponse.Success body = true <-> statusCode = 200 \/ statusCode = 201) /\
  (APIResponse.Success body = true -> APIResponse.Error body = APIResponse.Literal "") /\
  (APIResponse.Success body = false ->
   APIResponse.Error body <> APIResponse.Literal "" /\
   APIResponse.Data body = None /\ APIResponse.Message body = "").

(** Three events of one address whose times have different offsets:
    z20 at instant 20 in UTC, z10 at instant 10 at +01:00, z15 at
    instant 15 in UTC. *)
Definition mixed_offsets : list BlockchairTransaction.t :=
  [event "z20" 1 1 20;
   event "z10" 1 1 (ZonedTime.Build 10 3600);
   event "z15" 1 1 15].

(** [addrA] tracked and synchronised once with [mixed_offsets]. *)
Definition synced_mixed_offsets : SQLiteRepository :=
  snd (services.SyncAddress (clients.BlockchairClient (answering mixed_offsets))
         addrA 40 (tracking addrA)).

(** [addrB] tracked, with 2^63 - 1, then 1, then -1 received in blocks,
    and the same three stored in the order 2^63 - 1, -1, 1. *)
Definition over_then_back : SQLiteRepository :=
  snd (services.SyncAddress
         (clients.BlockchairClient
            (answering [event "g1" max_int64 1 10; event "g2" 1 2 20; event "g3" (-1) 3 30]))
         addrB 40 (tracking addrB)).

Definition back_then_over : SQLiteRepository :=
  snd (services.SyncAddress
         (clients.BlockchairClient
            (answering [event "g1" max_int64 1 10; event "g3" (-1) 3 30; event "g2" 1 2 20]))
         addrB 40 (tracking addrB)).

(** An address as the format check of the adapter accepts it. *)
Definition well_formed_address (address : string) : Prop :=
  26 <= Z.of_nat (String.length address) <= 62 /\
  (String.prefix "1" address = true \/ String.prefix "3" address = true \/
   String.prefix "bc1" address = true).

(** [Pa] holds of every address of [addresses] and [Pt] of every row of
    [transactions]. *)
Definition holds_of_rows (Pa : string -> Prop) (Pt : Transaction.t -> Prop)
           (r : SQLiteRepository) : Prop :=
  Forall Pa (map Address.Address (addresses r)) /\ Forall Pt (transactions r).

(** * Properties *)

Open Scope list_scope.

(** ** The adapter's format check, on the cases of its test *)

Example TestIsValidAddress :
  map (clients.BlockchairClient_IsValidAddress)
      ["bc1q0sg9rdst255gtldsmcf8rk0764avqy2h2ksqs5";
       "3E8ociqZa9mZUSwGdSmAEMAoAxBK3FNDcd";
       "1A1zP1eP5QGefi2DMPTfTL5SLmv7DivfNa";
       "invalid"; ""; "2N1234567890abcdef"]
  = [true; true; true; false; false; false].
Proof. reflexivity. Qed.

(** ** Lists, keys and the SQL fragments *)

Lemma has_key_iff hash address t :
  has_key hash address t = true <-> key t = (hash, address).
Proof.
  unfold has_key, key. rewrite andb_true_iff, !String.eqb_eq.
  split.
  - intros [-> ->]. reflexivity.
  - intros H. injection H as -> ->. split; reflexivity.
Qed.

Lemma has_key_false_iff hash address t :
  has_key hash address t = false <-> key t <> (hash, address).
Proof.
  rewrite <- has_key_iff. destruct (has_key hash address t); split; congruence.
Qed.

Lemma key_with_id id tx : key (with_id id tx) = key tx.
Proof. reflexivity. Qed.

Lemma filter_all {A} (p : A -> bool) (l : list A) :
  Forall (fun x => p x = true) l -> filter p l = l.
Proof.
  induction 1 as [|x l Hx _ IH]; simpl.
  - reflexivity.
  - rewrite Hx, IH. reflexivity.
Qed.

Lemma filter_none {A} (p : A -> bool) (l : list A) :
  Forall (fun x => p x = false) l -> filter p l = [].
Proof.
  induction 1 as [|x l Hx _ IH]; simpl.
  - reflexivity.
  - rewrite Hx. exact IH.
Qed.

(** Deleting rows keeps the keys distinct. *)
Lemma unique_keys_filter (keep : Transaction.t -> bool) (rows : list Transaction.t) :
  NoDup (map key rows) -> NoDup (map key (filter keep rows)).
Proof.
  induction rows as [|t rows IH]; simpl; intros H.
  - constructor.
  - inversion H as [|? ? Hnotin Hnd]; subst.
    destruct (keep t); simpl; auto.
    constructor; auto.
    intros Hin. apply Hnotin.
    apply in_map_iff in Hin. destruct Hin as [t' [Hkey Hin]].
    apply filter_In in Hin. apply in_map_iff. exists t'. tauto.
Qed.

(** The key is in the table exactly when COUNT finds a row. *)
Lemma key_present_iff hash address rows :
  (0 <? Z.of_nat (List.length (filter (has_key hash address) rows))) = true
  <-> In (hash, address) (map key rows).
Proof.
  induction rows as [|t rows IH]; simpl.
  - split; [discriminate | tauto].
  - destruct (has_key hash address t) eqn:Hk; simpl.
    + apply has_key_iff in Hk. split; auto; intros _; apply Z.ltb_lt; lia.
    + apply has_key_false_iff in Hk. rewrite IH. split; auto.
      intros [H|H]; [congruence | exact H].
Qed.

Lemma key_absent_filter hash address rows :
  ~ In (hash, address) (map key rows) ->
  filter (fun t => negb (has_key hash address t)) rows = rows.
Proof.
  intros H. apply filter_all. apply Forall_forall. intros t Ht.
  apply negb_true_iff. apply has_key_false_iff. intros Hk.
  apply H. rewrite <- Hk. apply in_map. exact Ht.
Qed.

Lemma TransactionExists_true hash address r :
  TransactionExists hash address r = Ok true <-> In (hash, address) (map key (transactions r)).
Proof.
  unfold TransactionExists. rewrite <- key_present_iff.
  split; [congruence | intros ->; reflexivity].
Qed.

Lemma TransactionExists_false hash address r :
  TransactionExists hash address r = Ok false <-> ~ In (hash, address) (map key (transactions r)).
Proof.
  unfold TransactionExists. rewrite <- key_present_iff.
  destruct (0 <? _); split; congruence.
Qed.

Lemma has_address_find address r :
  has_address address r = true <-> exists a, find (is_address address) (addresses r) = Some a.
Proof.
  unfold has_address. induction (addresses r) as [|a l IH]; simpl.
  - split; [discriminate | intros [a H]; discriminate].
  - destruct (is_address address a); simpl.
    + split; eauto.
    + exact IH.
Qed.

Lemma GetAddress_tracked address r :
  tracked address r <-> exists a, GetAddress address r = Ok a.
Proof.
  unfold tracked, GetAddress. rewrite has_address_find.
  destruct (find (is_address address) (addresses r)).
  - split; intros _; eauto.
  - split; intros [a H]; discriminate.
Qed.

Lemma GetAddress_untracked address r :
  has_address address r = false -> GetAddress address r = Err (AddressNotFound address).
Proof.
  unfold has_address, GetAddress.
  induction (addresses r) as [|a l IH]; simpl; auto.
  destruct (is_address address a); simpl; [discriminate | exact IH].
Qed.

(** ** Uniqueness of the dedup key *)

Lemma unique_keys_replace tx id rows :
  NoDup (map key rows) ->
  NoDup (map key (filter (fun t => negb (has_key (Transaction.Hash tx) (Transaction.Address tx) t))
                         rows ++ [with_id id tx])).
Proof.
  intros H. rewrite map_app. simpl.
  apply NoDup_app.
  - apply unique_keys_filter. exact H.
  - repeat constructor. simpl. tauto.
  - intros k Hin [Hk | []]. subst k.
    apply in_map_iff in Hin. destruct Hin as [t [Hkey Hin]].
    apply filter_In in Hin. destruct Hin as [_ Hneg].
    apply negb_true_iff, has_key_false_iff in Hneg.
    rewrite key_with_id in Hkey. apply Hneg. exact Hkey.
Qed.

Lemma step_unique_keys r r' : step r r' -> unique_keys r -> unique_keys r'.
Proof.
  unfold unique_keys. intros Hstep H. destruct Hstep.
  - unfold AddAddress. destruct (has_address address r); simpl; exact H.
  - unfold RemoveAddress, delete_address.
    assert (NoDup (map key
              (if foreign_keys r
                  && (0 <? Z.of_nat (List.length (filter (is_address address) (addresses r))))
               then filter (fun t => negb (of_address address t)) (transactions r)
               else transactions r))) as H'.
    { destruct (_ && _); [apply unique_keys_filter|]; exact H. }
    destruct (_ =? 0); simpl; exact H'.
  - simpl. exact H.
  - unfold SaveTransaction. destruct (_ && _); simpl.
    + exact H.
    + apply unique_keys_replace. exact H.
Qed.

Lemma steps_unique_keys r r' : steps r r' -> unique_keys r -> unique_keys r'.
Proof.
  induction 1 as [|r r' r'' Hstep _ IH]; auto.
  intros H. apply IH. eapply step_unique_keys; eauto.
Qed.

Lemma steps_trans r r' r'' : steps r r' -> steps r' r'' -> steps r r''.
Proof.
  induction 1 as [|a b c Hstep _ IH]; auto.
  intros H. econstructor; eauto.
Qed.

Lemma steps_one r r' : step r r' -> steps r r'.
Proof. intros H. econstructor; [exact H | constructor]. Qed.

(** ** The synchronisation of one address, step by step *)

Lemma save_new_cons address tx rest n r :
  services.save_new address (tx :: rest) n r =
  if 0 <? Z.of_nat (List.length (filter (has_key (Transaction.Hash tx) address) (transactions r)))
  then services.save_new address rest n r
  else
    match SaveTransaction tx r with
    | (Ok _, r') => services.save_new address rest (n + 1) r'
    | (Err e, r') => (Err (Wrap "failed to save transaction" e), r')
    end.
Proof.
  simpl. unfold bind, annotate, query, TransactionExists. simpl.
  destruct (0 <? _); simpl.
  - reflexivity.
  - destruct (SaveTransaction tx r) as [[u|e] r']; reflexivity.
Qed.

Lemma SyncAddress_unfold client address now r :
  services.SyncAddress client address now r =
  match GetAddress address r with
  | Err e => (Err (Wrap "address not being tracked" e), r)
  | Ok _ =>
      match clients.GetTransactions client address 100 with
      | Err e => (Err (Wrap "failed to fetch transactions from API" e), r)
      | Ok fetched =>
          match services.save_new address fetched 0 r with
          | (Ok savedCount, r') => (Ok savedCount, snd (UpdateLastSynced address now r'))
          | (Err e, r') => (Err e, r')
          end
      end
  end.
Proof.
  unfold services.SyncAddress, bind, annotate, query, ret. simpl.
  destruct (GetAddress address r); simpl; [|reflexivity].
  destruct (clients.GetTransactions client address 100); simpl; [|reflexivity].
  destruct (services.save_new address a0 0 r) as [[n|e] r']; reflexivity.
Qed.

(** A save that meets no row with its key appends one row. *)
Lemma SaveTransaction_absent tx r :
  foreign_keys r = false \/ tracked (Transaction.Address tx) r ->
  ~ In (key tx) (map key (transactions r)) ->
  exists r',
    SaveTransaction tx r = (Ok tt, r') /\
    transactions r' = transactions r ++ [with_id (transactions_seq r + 1) tx] /\
    addresses r' = addresses r /\ foreign_keys r' = foreign_keys r /\
    transactions_seq r' = transactions_seq r + 1.
Proof.
  intros Hfk Habsent. unfold SaveTransaction.
  assert (foreign_keys r && negb (has_address (Transaction.Address tx) r) = false) as ->.
  { destruct Hfk as [-> | ->]; [reflexivity | apply andb_false_r]. }
  eexists. split; [reflexivity|]. simpl.
  rewrite key_absent_filter by exact Habsent. auto.
Qed.

Lemma save_new_present address fetched : forall n r,
  Forall (fun tx => In (Transaction.Hash tx, address) (map key (transactions r))) fetched ->
  services.save_new address fetched n r = (Ok n, r).
Proof.
  induction fetched as [|tx rest IH]; intros n r H.
  - reflexivity.
  - inversion H as [|? ? Htx Hrest]; subst.
    rewrite save_new_cons.
    apply key_present_iff in Htx. rewrite Htx. apply IH. exact Hrest.
Qed.

(** The loop appends the fetched records whose key is absent and leaves
    every stored row as it is. *)
Lemma save_new_appends address fetched : forall n r,
  Forall (fun tx => Transaction.Address tx = address) fetched ->
  foreign_keys r = false \/ tracked address r ->
  exists added r',
    services.save_new address fetched n r = (Ok (n + Z.of_nat (List.length added)), r') /\
    transactions r' = transactions r ++ added /\
    addresses r' = addresses r /\
    foreign_keys r' = foreign_keys r /\
    Forall (fun t => ~ In (key t) (map key (transactions r)) /\
                     In (key t) (map key fetched)) added /\
    Forall (fun tx => In (key tx) (map key (transactions r'))) fetched.
Proof.
  induction fetched as [|tx rest IH]; intros n r Haddr Hfk.
  - exists [], r. simpl. rewrite Z.add_0_r, app_nil_r. repeat split; auto.
  - inversion Haddr as [|? ? Htx Hrest]; subst.
    rewrite save_new_cons.
    destruct (0 <? _) eqn:Hexists.
    + apply key_present_iff in Hexists.
      destruct (IH n r Hrest Hfk) as (added & r' & Hrun & Htxs & Ha & Hf & Hadded & Hall).
      exists added, r'. repeat split; auto.
      * eapply Forall_impl; [|exact Hadded]. simpl. intros t [H1 H2]. tauto.
      * constructor; [|exact Hall].
        rewrite Htxs, map_app. apply in_or_app. left. exact Hexists.
    + assert (~ In (key tx) (map key (transactions r))) as Habsent.
      { intros Hin. apply key_present_iff in Hin. congruence. }
      destruct (SaveTransaction_absent tx r Hfk Habsent) as (r1 & Hsave & Htxs1 & Ha1 & Hf1 & _).
      rewrite Hsave.
      assert (foreign_keys r1 = false \/ tracked (Transaction.Address tx) r1) as Hfk1.
      { unfold tracked, has_address in *. rewrite Hf1, Ha1. exact Hfk. }
      destruct (IH (n + 1) r1 Hrest Hfk1) as (added & r' & Hrun & Htxs & Ha & Hf & Hadded & Hall).
      exists (with_id (transactions_seq r + 1) tx :: added), r'.
      split; [|split; [|split; [|split; [|split]]]].
      * rewrite Hrun. do 2 f_equal. simpl List.length. lia.
      * rewrite Htxs, Htxs1, <- app_assoc. reflexivity.
      * congruence.
      * congruence.
      * constructor.
        -- rewrite key_with_id. split; [exact Habsent | simpl; auto].
        -- eapply Forall_impl; [|exact Hadded]. simpl. intros t [H1 H2].
           split; [|tauto]. intros Hin. apply H1.
           rewrite Htxs1, map_app. apply in_or_app. left. exact Hin.
      * constructor; [|exact Hall].
        rewrite Htxs, Htxs1, !map_app. apply in_or_app. left.
        apply in_or_app. right. simpl. left. apply key_with_id.
Qed.

Lemma classify_address address events :
  Forall (fun tx => Transaction.Address tx = address) (map (clients.classify address) events).
Proof. apply Forall_forall. intros tx Hin. apply in_map_iff in Hin. destruct Hin as [e [<- _]]. reflexivity. Qed.

(** What the Blockchair adapter returns is filed under the address asked for. *)
Lemma Blockchair_address httpGet address limit fetched :
  clients.GetTransactions (clients.BlockchairClient httpGet) address limit = Ok fetched ->
  Forall (fun tx => Transaction.Address tx = address) fetched.
Proof.
  simpl. unfold clients.BlockchairClient_GetTransactions.
  destruct (httpGet address limit) as [|code [body|]]; try discriminate;
    destruct (negb (code =? 200)); try discriminate.
  intros H. injection H as <-. apply classify_address.
Qed.

Lemma is_address_set address address' syncTime a :
  is_address address (set_last_synced address' syncTime a) = is_address address a.
Proof. unfold set_last_synced. destruct (is_address address' a); reflexivity. Qed.

Lemma find_set_last_synced address address' syncTime l :
  find (is_address address) (map (set_last_synced address' syncTime) l)
  = option_map (set_last_synced address' syncTime) (find (is_address address) l).
Proof.
  induction l as [|a l IH]; simpl.
  - reflexivity.
  - rewrite is_address_set. destruct (is_address address a); [reflexivity | exact IH].
Qed.

Lemma last_synced_updated address now r :
  tracked address r ->
  last_synced address (snd (UpdateLastSynced address now r)) = Some now.
Proof.
  intros H. apply has_address_find in H. destruct H as [a Ha].
  unfold last_synced. simpl. rewrite find_set_last_synced, Ha. simpl.
  apply find_some in Ha. destruct Ha as [_ Ha].
  unfold set_last_synced. rewrite Ha. reflexivity.
Qed.

(** A successful fetch for a tracked address makes the whole
    synchronisation succeed. *)
Lemma SyncAddress_fetched httpGet address now r fetched :
  tracked address r ->
  clients.GetTransactions (clients.BlockchairClient httpGet) address 100 = Ok fetched ->
  exists added r',
    services.save_new address fetched 0 r = (Ok (Z.of_nat (List.length added)), r') /\
    services.SyncAddress (clients.BlockchairClient httpGet) address now r
      = (Ok (Z.of_nat (List.length added)), snd (UpdateLastSynced address now r')) /\
    transactions r' = transactions r ++ added /\
    addresses r' = addresses r /\
    Forall (fun t => ~ In (key t) (map key (transactions r)) /\
                     In (key t) (map key fetched)) added /\
    Forall (fun tx => In (key tx) (map key (transactions r'))) fetched.
Proof.
  intros Htracked Hfetch.
  pose proof (Blockchair_address _ _ _ _ Hfetch) as Haddr.
  destruct (save_new_appends address fetched 0 r Haddr (or_intror Htracked))
    as (added & r' & Hrun & Htxs & Ha & Hf & Hadded & Hall).
  exists added, r'. simpl in Hrun.
  rewrite SyncAddress_unfold.
  apply GetAddress_tracked in Htracked. destruct Htracked as [a ->].
  rewrite Hfetch, Hrun. auto 10.
Qed.

(** ** Every method of the service is a sequence of writing statements *)

Lemma save_new_steps address fetched : forall n r,
  steps r (snd (services.save_new address fetched n r)).
Proof.
  induction fetched as [|tx rest IH]; intros n r.
  - constructor.
  - rewrite save_new_cons. destruct (0 <? _); [apply IH|].
    pose proof (step_SaveTransaction tx r) as Hstep.
    destruct (SaveTransaction tx r) as [[u|e] r']; simpl in *.
    + econstructor; [exact Hstep | apply IH].
    + apply steps_one. exact Hstep.
Qed.

Lemma SyncAddress_steps client address now r :
  steps r (snd (services.SyncAddress client address now r)).
Proof.
  rewrite SyncAddress_unfold.
  destruct (GetAddress address r); [|constructor].
  destruct (clients.GetTransactions client address 100); [|constructor].
  pose proof (save_new_steps address a0 0 r) as H.
  destruct (services.save_new address a0 0 r) as [[n|e] r']; simpl in *; [|exact H].
  eapply steps_trans; [exact H|]. apply steps_one. apply step_UpdateLastSynced.
Qed.

Lemma sync_each_steps client now addrs : forall errors r,
  steps r (snd (services.sync_each client now addrs errors r)).
Proof.
  induction addrs as [|addr rest IH]; intros errors r; simpl.
  - constructor.
  - pose proof (SyncAddress_steps client (Address.Address addr) (now (Address.Address addr)) r) as H.
    destruct (services.SyncAddress client _ _ r) as [[n|e] r']; simpl in H;
      (eapply steps_trans; [exact H | apply IH]).
Qed.

Lemma SyncAllAddresses_steps client now r :
  steps r (snd (services.SyncAllAddresses client now r)).
Proof.
  unfold services.SyncAllAddresses, bind, annotate, query. simpl.
  pose proof (sync_each_steps client now (order_by_desc Address.CreatedAt (addresses r)) [] r) as H.
  destruct (services.sync_each client now _ [] r) as [[errors|e] r']; simpl in *; [|exact H].
  destruct (0 <? _); exact H.
Qed.

Lemma AddAddress_steps client address label created_at now r :
  steps r (snd (services.AddAddress client address label created_at now r)).
Proof.
  unfold services.AddAddress.
  destruct (negb (clients.IsValidAddress client address)); [constructor|].
  destruct (GetAddress address r); [constructor|].
  pose proof (step_AddAddress address label created_at r) as H.
  destruct (AddAddress address label created_at r) as [[a|e'] r']; simpl in *.
  - econstructor; [exact H | apply SyncAddress_steps].
  - apply steps_one. exact H.
Qed.

Lemma run_steps client op r : steps r (run client op r).
Proof.
  destruct op; simpl.
  - apply AddAddress_steps.
  - apply steps_one. apply step_RemoveAddress.
  - apply SyncAddress_steps.
  - apply SyncAllAddresses_steps.
Qed.

Lemma connect_unique_keys fk : unique_keys (connect fk).
Proof. constructor. Qed.

(** ** C5 *)

(** C5. In every reachable state of the store no two rows of
    [transactions] share (hash, address).  The states are those reached by
    any sequence of writing statements, so the ones reached by interleaved
    or repeated synchronisations are among them; from such a state every
    further statement and every method of the service keeps the property. *)
Theorem dedup_key_unique r :
  reachable r ->
  unique_keys r /\
  (forall r', steps r r' -> unique_keys r') /\
  (forall client op, unique_keys (run client op r)).
Proof.
  intros [fk Hreach].
  assert (unique_keys r) as H.
  { eapply steps_unique_keys; [exact Hreach | apply connect_unique_keys]. }
  split; [exact H|]. split.
  - intros r' Hsteps. eapply steps_unique_keys; eauto.
  - intros client op. eapply steps_unique_keys; [apply run_steps | exact H].
Qed.

Lemma dedup_key_unique_witness :
  reachable synced_three /\
  unique_keys synced_three /\
  (forall r', steps synced_three r' -> unique_keys r') /\
  (forall client op, unique_keys (run client op synced_three)).
Proof.
  assert (reachable synced_three) as H.
  { exists false. unfold synced_three, tracking.
    eapply steps_cons; [apply step_AddAddress | apply SyncAddress_steps]. }
  split; [exact H|].
  exact (dedup_key_unique synced_three H).
Defined.

(** Two saves of one key, as when two synchronisations both found the key
    absent: the second replaces the row of the first. *)
Lemma SaveTransaction_twice tx tx' r :
  foreign_keys r = false ->
  ~ In (key tx) (map key (transactions r)) ->
  key tx' = key tx ->
  transactions (snd (SaveTransaction tx' (snd (SaveTransaction tx r))))
  = transactions r ++ [with_id (transactions_seq r + 2) tx'].
Proof.
  intros Hfk Habsent Hkey. unfold SaveTransaction. simpl. rewrite Hfk. simpl.
  rewrite (key_absent_filter (Transaction.Hash tx) (Transaction.Address tx) (transactions r))
    by exact Habsent.
  rewrite filter_app. simpl.
  injection Hkey as -> ->.
  rewrite (key_absent_filter (Transaction.Hash tx) (Transaction.Address tx) (transactions r))
    by exact Habsent.
  unfold has_key at 1. simpl. rewrite !String.eqb_refl. simpl.
  rewrite app_nil_r. do 3 f_equal. lia.
Qed.

(** ** C2 *)

Lemma has_address_UpdateLastSynced address address' syncTime r :
  has_address address (snd (UpdateLastSynced address' syncTime r)) = has_address address r.
Proof.
  unfold has_address. simpl. induction (addresses r) as [|a l IH]; simpl.
  - reflexivity.
  - rewrite is_address_set, IH. reflexivity.
Qed.

Lemma fetched_keys address fetched rows :
  Forall (fun tx => Transaction.Address tx = address) fetched ->
  Forall (fun tx => In (key tx) (map key rows)) fetched ->
  Forall (fun tx => In (Transaction.Hash tx, address) (map key rows)) fetched.
Proof.
  intros Haddr Hall. rewrite Forall_forall in *. intros tx Hin.
  specialize (Hall tx Hin). unfold key in Hall at 1. rewrite (Haddr tx Hin) in Hall. exact Hall.
Qed.

(** A second synchronisation that fetches what the first one fetched
    writes no row. *)
Lemma SyncAddress_again httpGet address now1 now2 r :
  let client := clients.BlockchairClient httpGet in
  let r1 := snd (services.SyncAddress client address now1 r) in
  transactions (snd (services.SyncAddress client address now2 r1)) = transactions r1 /\
  (is_ok (fst (services.SyncAddress client address now1 r)) = true ->
   fst (services.SyncAddress client address now2 r1) = Ok 0).
Proof.
  intros client r1. subst r1.
  destruct (GetAddress address r) as [a|e] eqn:Hget.
  - destruct (clients.GetTransactions client address 100) as [fetched|e] eqn:Hfetch.
    + assert (tracked address r) as Htracked by (apply GetAddress_tracked; eauto).
      destruct (SyncAddress_fetched httpGet address now1 r fetched Htracked Hfetch)
        as (added & r' & _ & Hsync & _ & Ha & _ & Hall).
      fold client in Hsync. rewrite Hsync. cbn [fst snd].
      assert (tracked address (snd (UpdateLastSynced address now1 r'))) as Htracked1.
      { unfold tracked. rewrite has_address_UpdateLastSynced.
        unfold has_address. rewrite Ha. exact Htracked. }
      apply GetAddress_tracked in Htracked1. destruct Htracked1 as [a1 Hget1].
      rewrite SyncAddress_unfold, Hget1, Hfetch.
      rewrite save_new_present.
      * simpl. split; reflexivity.
      * apply fetched_keys; [eapply Blockchair_address; exact Hfetch | exact Hall].
    + rewrite (SyncAddress_unfold client address now1 r), Hget, Hfetch. cbn [fst snd].
      rewrite SyncAddress_unfold, Hget, Hfetch. simpl. split; [reflexivity | discriminate].
  - rewrite (SyncAddress_unfold client address now1 r), Hget. cbn [fst snd].
    rewrite SyncAddress_unfold, Hget. simpl. split; [reflexivity | discriminate].
Qed.

(** C2. Two synchronisations of an address in a row, the adapter returning
    the same events to both: the second leaves [transactions] as the first
    left it, so the records of the address are the same rows, as many as
    before and with no key twice; the second one saves nothing. *)
Theorem sync_twice_same_records httpGet address now1 now2 r :
  unique_keys r ->
  let client := clients.BlockchairClient httpGet in
  let r1 := snd (services.SyncAddress client address now1 r) in
  let r2 := snd (services.SyncAddress client address now2 r1) in
  transactions r2 = transactions r1 /\
  records_of address r2 = records_of address r1 /\
  List.length (records_of address r2) = List.length (records_of address r1) /\
  NoDup (map key (records_of address r2)) /\
  (is_ok (fst (services.SyncAddress client address now1 r)) = true ->
   fst (services.SyncAddress client address now2 r1) = Ok 0).
Proof.
  intros Hunique client r1 r2.
  destruct (SyncAddress_again httpGet address now1 now2 r) as [Hsame Hzero].
  fold client in Hsame, Hzero. fold r1 in Hsame, Hzero. fold r2 in Hsame.
  assert (records_of address r2 = records_of address r1) as Hrec.
  { unfold records_of. rewrite Hsame. reflexivity. }
  repeat split; auto.
  - rewrite Hrec. reflexivity.
  - apply unique_keys_filter.
    apply (steps_unique_keys r r2); [|exact Hunique].
    eapply steps_trans; apply SyncAddress_steps.
Qed.

Lemma sync_twice_same_records_witness :
  unique_keys (tracking addrA) /\
  let client := clients.BlockchairClient (answering (three_events 10 20 30)) in
  let r1 := snd (services.SyncAddress client addrA 40 (tracking addrA)) in
  let r2 := snd (services.SyncAddress client addrA 50 r1) in
  transactions r2 = transactions r1 /\
  records_of addrA r2 = records_of addrA r1 /\
  List.length (records_of addrA r2) = List.length (records_of addrA r1) /\
  NoDup (map key (records_of addrA r2)) /\
  (is_ok (fst (services.SyncAddress client addrA 40 (tracking addrA))) = true ->
   fst (services.SyncAddress client addrA 50 r1) = Ok 0).
Proof.
  assert (unique_keys (tracking addrA)) as H by (vm_compute; constructor).
  split; [exact H|].
  exact (sync_twice_same_records (answering (three_events 10 20 30)) addrA 40 50
           (tracking addrA) H).
Defined.

(** The first of the two synchronisations stores the three records. *)
Example first_sync_stores_three :
  let client := clients.BlockchairClient (answering (three_events 10 20 30)) in
  services.SyncAddress client addrA 40 (tracking addrA)
  = (Ok 3, snd (services.SyncAddress client addrA 40 (tracking addrA))) /\
  List.length (records_of addrA (snd (services.SyncAddress client addrA 40 (tracking addrA))))
  = 3%nat.
Proof. vm_compute. split; reflexivity. Qed.

(** ** C1 *)

Lemma find_app_some {A} (p : A -> bool) (l l' : list A) (x : A) :
  find p l = Some x -> find p (l ++ l') = Some x.
Proof.
  induction l as [|y l IH]; simpl; [discriminate|].
  destruct (p y); auto.
Qed.

(** C1, as the program has it. An event whose (hash, address) is already
    stored is skipped: after the synchronisation the stored record of that
    pair is the record stored before, with the confirmation count it had,
    whatever count the event carries; every row stored before is still
    there, and the rows added are those of pairs that were absent. *)
Theorem sync_keeps_stored_record httpGet address now r fetched tx old :
  tracked address r ->
  clients.GetTransactions (clients.BlockchairClient httpGet) address 100 = Ok fetched ->
  In tx fetched ->
  stored (Transaction.Hash tx) address r = Some old ->
  let r' := snd (services.SyncAddress (clients.BlockchairClient httpGet) address now r) in
  stored (Transaction.Hash tx) address r' = Some old /\
  exists added,
    transactions r' = transactions r ++ added /\
    Forall (fun t => ~ In (key t) (map key (transactions r))) added.
Proof.
  intros Htracked Hfetch Hin Hold r'. subst r'.
  destruct (SyncAddress_fetched httpGet address now r fetched Htracked Hfetch)
    as (added & r1 & _ & Hsync & Htxs & _ & Hadded & _).
  rewrite Hsync. cbn [snd].
  assert (transactions (snd (UpdateLastSynced address now r1)) = transactions r ++ added)
    as Ht by exact Htxs.
  split.
  - unfold stored. rewrite Ht. apply find_app_some. exact Hold.
  - exists added. split; [exact Ht|].
    eapply Forall_impl; [|exact Hadded]. simpl. tauto.
Qed.

Lemma sync_keeps_stored_record_witness :
  tracked addrA h3_unconfirmed /\
  let tx := clients.classify addrA (event "h3" 100000000 800020 30) in
  let old := Transaction.Build 1 "h3" addrA 100000000 0 0 30 "received" in
  let r' := snd (services.SyncAddress (clients.BlockchairClient h3_in_block) addrA 50
                   h3_unconfirmed) in
  Transaction.Confirmations tx = 6 /\
  stored (Transaction.Hash tx) addrA r' = Some old /\
  exists added,
    transactions r' = transactions h3_unconfirmed ++ added /\
    Forall (fun t => ~ In (key t) (map key (transactions h3_unconfirmed))) added.
Proof.
  split; [reflexivity|]. split; [reflexivity|].
  apply (sync_keeps_stored_record h3_in_block addrA 50 h3_unconfirmed
           [clients.classify addrA (event "h3" 100000000 800020 30)]
           (clients.classify addrA (event "h3" 100000000 800020 30))
           (Transaction.Build 1 "h3" addrA 100000000 0 0 30 "received")).
  - reflexivity.
  - reflexivity.
  - simpl. auto.
  - reflexivity.
Defined.

(** C1, as stated, fails: h3 was stored with no confirmation, the adapter
    now reports it in a block (6 confirmations), and the stored record
    still has none after the synchronisation. *)
Lemma sync_does_not_overwrite :
  ~ (forall httpGet address now r fetched tx old,
        tracked address r ->
        clients.GetTransactions (clients.BlockchairClient httpGet) address 100 = Ok fetched ->
        In tx fetched ->
        stored (Transaction.Hash tx) address r = Some old ->
        Transaction.Confirmations old <> Transaction.Confirmations tx ->
        exists new,
          stored (Transaction.Hash tx) address
            (snd (services.SyncAddress (clients.BlockchairClient httpGet) address now r))
          = Some new /\
          Transaction.Confirmations new = Transaction.Confirmations tx).
Proof.
  intros H.
  destruct (H h3_in_block addrA 50 h3_unconfirmed
              [clients.classify addrA (event "h3" 100000000 800020 30)]
              (clients.classify addrA (event "h3" 100000000 800020 30))
              (Transaction.Build 1 "h3" addrA 100000000 0 0 30 "received"))
    as [new [Hstored Hconf]].
  - reflexivity.
  - reflexivity.
  - simpl. auto.
  - reflexivity.
  - simpl. discriminate.
  - vm_compute in Hstored. injection Hstored as <-. simpl in Hconf. discriminate.
Qed.

(** ** C6 *)

Lemma added_nil_when_present {A B} (f : A -> B) (old : list B) (fetched added : list A) :
  Forall (fun t => ~ In (f t) old /\ In (f t) (map f fetched)) added ->
  Forall (fun tx => In (f tx) old) fetched ->
  added = [].
Proof.
  intros Hadded Hpresent. destruct added as [|t added]; [reflexivity|].
  inversion Hadded as [|? ? [Hnot Hin] _]; subst.
  apply in_map_iff in Hin. destruct Hin as [tx [Heq Hin]].
  rewrite Forall_forall in Hpresent. specialize (Hpresent tx Hin).
  rewrite Heq in Hpresent. contradiction.
Qed.

(** C6. For a tracked address: when the fetch of the adapter fails, the
    synchronisation fails and the database, the watermark with it, is as
    before; when the fetch succeeds, the synchronisation succeeds and the
    watermark is the current time, also when every fetched record was
    already stored and none was saved. *)
Theorem watermark_after_sync httpGet address now r :
  tracked address r ->
  let client := clients.BlockchairClient httpGet in
  (forall e, clients.GetTransactions client address 100 = Err e ->
     services.SyncAddress client address now r
     = (Err (Wrap "failed to fetch transactions from API" e), r) /\
     last_synced address (snd (services.SyncAddress client address now r))
     = last_synced address r) /\
  (forall fetched, clients.GetTransactions client address 100 = Ok fetched ->
     exists savedCount r',
       services.SyncAddress client address now r = (Ok savedCount, r') /\
       last_synced address r' = Some now /\
       (Forall (fun tx => In (key tx) (map key (transactions r))) fetched ->
        savedCount = 0 /\ transactions r' = transactions r)).
Proof.
  intros Htracked client. split.
  - intros e Hfetch. rewrite SyncAddress_unfold, Hfetch.
    apply GetAddress_tracked in Htracked. destruct Htracked as [a ->]. auto.
  - intros fetched Hfetch.
    destruct (SyncAddress_fetched httpGet address now r fetched Htracked Hfetch)
      as (added & r1 & _ & Hsync & Htxs & Ha & Hadded & _).
    exists (Z.of_nat (List.length added)), (snd (UpdateLastSynced address now r1)).
    split; [exact Hsync|]. split.
    + apply last_synced_updated. unfold tracked, has_address. rewrite Ha. exact Htracked.
    + intros Hpresent.
      rewrite (added_nil_when_present key _ fetched added Hadded Hpresent) in *.
      simpl. rewrite Htxs, app_nil_r. auto.
Qed.

Lemma watermark_after_sync_witness :
  tracked addrA h3_unconfirmed /\
  (services.SyncAddress (clients.BlockchairClient out_of_reach) addrA 50 h3_unconfirmed
   = (Err (Wrap "failed to fetch transactions from API"
             (Wrap "failed to fetch transactions" HttpError)), h3_unconfirmed) /\
   last_synced addrA
     (snd (services.SyncAddress (clients.BlockchairClient out_of_reach) addrA 50 h3_unconfirmed))
   = last_synced addrA h3_unconfirmed) /\
  last_synced addrA h3_unconfirmed = Some 40 /\
  exists savedCount r',
    services.SyncAddress (clients.BlockchairClient h3_in_block) addrA 50 h3_unconfirmed
    = (Ok savedCount, r') /\
    last_synced addrA r' = Some 50 /\
    (Forall (fun tx => In (key tx) (map key (transactions h3_unconfirmed)))
            [clients.classify addrA (event "h3" 100000000 800020 30)] ->
     savedCount = 0 /\ transactions r' = transactions h3_unconfirmed).
Proof.
  assert (tracked addrA h3_unconfirmed) as H by reflexivity.
  split; [exact H|]. split; [|split; [reflexivity|]].
  - apply (proj1 (watermark_after_sync out_of_reach addrA 50 h3_unconfirmed H)).
    reflexivity.
  - apply (proj2 (watermark_after_sync h3_in_block addrA 50 h3_unconfirmed H)).
    reflexivity.
Defined.

(** ** C3 *)

Lemma wrap64_in_range z : in_int64 z -> wrap64 z = z.
Proof.
  unfold in_int64, min_int64, max_int64, wrap64. intros H.
  rewrite Z.mod_small; lia.
Qed.

Lemma magnitude_nonneg values : 0 <= magnitude values.
Proof. induction values as [|v l IH]; simpl; lia. Qed.

Lemma total_le_magnitude values : Z.abs (total values) <= magnitude values.
Proof. induction values as [|v l IH]; simpl; lia. Qed.

(** In range, the 64-bit accumulator of SUM never overflows and holds the
    sum over the integers. *)
Lemma sum_from_exact values : forall acc,
  Z.abs acc + magnitude values <= max_int64 ->
  sum_from acc values = Some (acc + total values).
Proof.
  induction values as [|v l IH]; intros acc H; simpl in *.
  - rewrite Z.add_0_r. reflexivity.
  - pose proof (magnitude_nonneg l) as Hl.
    assert (in_int64b (acc + v) = true) as ->.
    { unfold in_int64b, min_int64, max_int64 in *.
      apply andb_true_iff. split; apply Z.leb_le; lia. }
    rewrite IH by lia. f_equal. lia.
Qed.

Lemma coalesce_sum_exact values :
  magnitude values <= max_int64 -> coalesce_sum values = Ok (total values).
Proof.
  intros H. unfold coalesce_sum. rewrite sum_from_exact by (simpl; lia). reflexivity.
Qed.

Lemma magnitude_filter (p : Transaction.t -> bool) address rows :
  (forall t, p t = true -> of_address address t = true) ->
  magnitude (map Transaction.Amount (filter p rows))
  <= magnitude (map Transaction.Amount (filter (of_address address) rows)).
Proof.
  intros Hp. induction rows as [|t rows IH]; simpl; [lia|].
  destruct (p t) eqn:Hpt.
  - rewrite (Hp t Hpt). simpl. lia.
  - destruct (of_address address t); simpl; lia.
Qed.

Lemma total_confirmed address rows :
  total (map Transaction.Amount (filter (confirmed_of address) rows))
  = recompute address (fun c => 1 <=? c) rows.
Proof.
  induction rows as [|t rows IH]; simpl; [reflexivity|].
  unfold confirmed_of at 1, of_address.
  destruct (_ && _); simpl; rewrite IH; reflexivity.
Qed.

Lemma total_unconfirmed address rows :
  total (map Transaction.Amount (filter (unconfirmed_of address) rows))
  = recompute address (fun c => c =? 0) rows.
Proof.
  induction rows as [|t rows IH]; simpl; [reflexivity|].
  unfold unconfirmed_of at 1, of_address.
  destruct (_ && _); simpl; rewrite IH; reflexivity.
Qed.

Lemma recompute_Permutation address p rows rows' :
  Permutation rows rows' -> recompute address p rows = recompute address p rows'.
Proof.
  induction 1 as [|t l l' _ IH|t t' l|l l' l'' _ IH1 _ IH2]; simpl.
  - reflexivity.
  - rewrite IH. reflexivity.
  - destruct (_ && _); destruct (_ && _); lia.
  - congruence.
Qed.

Lemma magnitude_Permutation values values' :
  Permutation values values' -> magnitude values = magnitude values'.
Proof.
  induction 1 as [|v l l' _ IH|v v' l|l l' l'' _ IH1 _ IH2]; simpl; lia.
Qed.

Lemma filter_Permutation {A} (p : A -> bool) (l l' : list A) :
  Permutation l l' -> Permutation (filter p l) (filter p l').
Proof.
  induction 1 as [|x l l' _ IH|x y l|l l' l'' _ IH1 _ IH2]; simpl.
  - constructor.
  - destruct (p x); auto.
  - destruct (p x), (p y); auto. apply perm_swap.
  - eapply perm_trans; eauto.
Qed.

(** The balance of the repository, in range, in closed form. *)
Lemma CalculateBalance_exact address r :
  magnitude (map Transaction.Amount (records_of address r)) <= max_int64 ->
  let confirmed := recompute address (fun c => 1 <=? c) (transactions r) in
  let unconfirmed := recompute address (fun c => c =? 0) (transactions r) in
  in_int64 confirmed /\ in_int64 unconfirmed /\
  in_int64 (confirmed + unconfirmed) /\
  CalculateBalance address r
  = Ok (Balance.Build address confirmed unconfirmed (confirmed + unconfirmed)
          (float64_div (float64_of_int64 (confirmed + unconfirmed))
                       (float64_of_int64 100000000))).
Proof.
  intros Hrange confirmed unconfirmed. unfold records_of in Hrange.
  set (rows := transactions r) in *.
  assert (forall t, confirmed_of address t = true -> of_address address t = true) as Hc.
  { unfold confirmed_of. intros t H. apply andb_true_iff in H. tauto. }
  assert (forall t, unconfirmed_of address t = true -> of_address address t = true) as Hu.
  { unfold unconfirmed_of. intros t H. apply andb_true_iff in H. tauto. }
  pose proof (magnitude_filter _ address rows Hc) as Mc.
  pose proof (magnitude_filter _ address rows Hu) as Mu.
  pose proof (total_le_magnitude (map Transaction.Amount (filter (confirmed_of address) rows))) as Tc.
  pose proof (total_le_magnitude (map Transaction.Amount (filter (unconfirmed_of address) rows))) as Tu.
  rewrite total_confirmed in Tc. rewrite total_unconfirmed in Tu.
  fold confirmed in Tc. fold unconfirmed in Tu.
  assert (Z.abs (confirmed + unconfirmed) <= max_int64) as Hsum.
  { assert (magnitude (map Transaction.Amount (filter (confirmed_of address) rows))
            + magnitude (map Transaction.Amount (filter (unconfirmed_of address) rows))
            <= magnitude (map Transaction.Amount (filter (of_address address) rows))) as Hsplit.
    { clear. induction rows as [|t rows IH]; simpl; [lia|].
      unfold confirmed_of at 1, unconfirmed_of at 1.
      destruct (of_address address t); simpl; [|exact IH].
      destruct (1 <=? Transaction.Confirmations t) eqn:H1;
        destruct (Transaction.Confirmations t =? 0) eqn:H0; simpl; lia. }
    lia. }
  assert (forall z, Z.abs z <= max_int64 -> in_int64 z) as Habs.
  { unfold in_int64, min_int64, max_int64. intros z Hz. lia. }
  split; [apply Habs; lia|]. split; [apply Habs; lia|]. split; [apply Habs; lia|].
  unfold CalculateBalance. fold rows.
  rewrite coalesce_sum_exact by lia. rewrite coalesce_sum_exact by lia.
  rewrite total_confirmed, total_unconfirmed. fold confirmed unconfirmed.
  rewrite wrap64_in_range by (apply Habs; lia). reflexivity.
Qed.

(** C3. For a tracked address whose stored amounts are within the range
    of int64 (their absolute values add up to at most 2^63 - 1), the
    balance has, as confirmed part, the sum of the amounts of the records
    of the address with at least one confirmation, as unconfirmed part the
    sum of those with none, and as total the sum of the two; a database
    holding the same rows in another order gives the same balance. *)
Theorem balance_is_recomputation address r :
  tracked address r ->
  magnitude (map Transaction.Amount (records_of address r)) <= max_int64 ->
  let confirmed := recompute address (fun c => 1 <=? c) (transactions r) in
  let unconfirmed := recompute address (fun c => c =? 0) (transactions r) in
  services.GetBalance address r
  = Ok (Balance.Build address confirmed unconfirmed (confirmed + unconfirmed)
          (float64_div (float64_of_int64 (confirmed + unconfirmed))
                       (float64_of_int64 100000000))) /\
  (forall r',
     tracked address r' -> Permutation (transactions r) (transactions r') ->
     services.GetBalance address r' = services.GetBalance address r).
Proof.
  intros Htracked Hrange confirmed unconfirmed.
  destruct (CalculateBalance_exact address r Hrange) as (_ & _ & _ & Hbal).
  fold confirmed unconfirmed in Hbal.
  assert (services.GetBalance address r = CalculateBalance address r) as Hget.
  { unfold services.GetBalance. apply GetAddress_tracked in Htracked.
    destruct Htracked as [a ->]. reflexivity. }
  split.
  - rewrite Hget. exact Hbal.
  - intros r' Htracked' Hperm.
    assert (magnitude (map Transaction.Amount (records_of address r')) <= max_int64) as Hrange'.
    { rewrite <- (magnitude_Permutation (map Transaction.Amount (records_of address r))); auto.
      apply Permutation_map. apply filter_Permutation. exact Hperm. }
    destruct (CalculateBalance_exact address r' Hrange') as (_ & _ & _ & Hbal').
    rewrite Hget, Hbal.
    unfold services.GetBalance. apply GetAddress_tracked in Htracked'.
    destruct Htracked' as [a' ->]. unfold GetBalance. rewrite Hbal'.
    rewrite <- !(recompute_Permutation address _ _ _ Hperm). reflexivity.
Qed.

Lemma balance_is_recomputation_witness :
  tracked addrA synced_three /\
  magnitude (map Transaction.Amount (records_of addrA synced_three)) <= max_int64 /\
  services.GetBalance addrA synced_three
  = Ok (Balance.Build addrA 300000000 100000000 400000000
          (S754_finite false 4503599627370496 (-50))) /\
  (forall r',
     tracked addrA r' -> Permutation (transactions synced_three) (transactions r') ->
     services.GetBalance addrA r' = services.GetBalance addrA synced_three).
Proof.
  assert (tracked addrA synced_three) as H1 by reflexivity.
  assert (magnitude (map Transaction.Amount (records_of addrA synced_three)) <= max_int64)
    as H2 by (vm_compute; discriminate).
  split; [exact H1|]. split; [exact H2|].
  exact (balance_is_recomputation addrA synced_three H1 H2).
Defined.

(** Out of the range: SUM fails when its accumulator overflows, and the
    addition of the two sums wraps around. *)
Example balance_out_of_range :
  services.GetBalance addrB two_tracked
  = Err (Wrap "failed to calculate confirmed balance" (SqlError IntegerOverflow)) /\
  option_map Balance.TotalBalance
    (match services.GetBalance addrB at_the_edge with Ok b => Some b | Err _ => None end)
  = Some min_int64.
Proof. split; reflexivity. Qed.

(** The same three amounts of one address: the balance is computed when
    they were stored in one order and is an overflow error in the other. *)
Example balance_depends_on_stored_order :
  Permutation (map Transaction.Amount (records_of addrB over_then_back))
              (map Transaction.Amount (records_of addrB back_then_over)) /\
  services.GetBalance addrB over_then_back
  = Err (Wrap "failed to calculate confirmed balance" (SqlError IntegerOverflow)) /\
  option_map Balance.ConfirmedBalance
    (match services.GetBalance addrB back_then_over with Ok b => Some b | Err _ => None end)
  = Some max_int64.
Proof.
  split; [|split; reflexivity].
  vm_compute. apply perm_skip. apply perm_swap.
Qed.

(** C3, as stated for every set of stored records, fails: with 2^63 - 1
    confirmed and 1 unconfirmed the two sums are right and the total the
    program returns is their sum in int64, -2^63. *)
Lemma balance_total_wraps :
  ~ (forall address r,
       tracked address r ->
       exists balance,
         services.GetBalance address r = Ok balance /\
         Balance.ConfirmedBalance balance
         = recompute address (fun c => 1 <=? c) (transactions r) /\
         Balance.UnconfirmedBalance balance
         = recompute address (fun c => c =? 0) (transactions r) /\
         Balance.TotalBalance balance
         = Balance.ConfirmedBalance balance + Balance.UnconfirmedBalance balance).
Proof.
  intros H.
  destruct (H addrB at_the_edge) as (balance & Hget & Hc & Hu & Ht); [reflexivity|].
  vm_compute in Hget. injection Hget as <-.
  vm_compute in Ht. discriminate.
Qed.

(** ** C9 *)

Lemma insert_desc_Permutation {A} (f : A -> Z) x l :
  Permutation (insert_desc f x l) (x :: l).
Proof.
  induction l as [|y l IH]; simpl.
  - apply Permutation_refl.
  - destruct (f y <=? f x).
    + apply Permutation_refl.
    + eapply perm_trans; [apply perm_skip; exact IH | apply perm_swap].
Qed.

Lemma order_by_desc_Permutation {A} (f : A -> Z) l :
  Permutation (order_by_desc f l) l.
Proof.
  induction l as [|x l IH]; simpl.
  - constructor.
  - eapply perm_trans; [apply insert_desc_Permutation | apply perm_skip; exact IH].
Qed.

Lemma insert_desc_descending {A} (f : A -> Z) x l :
  descending f l -> descending f (insert_desc f x l).
Proof.
  unfold descending. induction 1 as [|y l Hl IH Hy]; simpl.
  - repeat constructor.
  - destruct (f y <=? f x) eqn:Hle.
    + apply Z.leb_le in Hle. constructor.
      * constructor; assumption.
      * constructor; [exact Hle|].
        eapply Forall_impl; [|exact Hy]. simpl. intros z Hz. lia.
    + apply Z.leb_gt in Hle. constructor; [exact IH|].
      apply Forall_forall. intros z Hz.
      apply (Permutation_in _ (insert_desc_Permutation f x l)) in Hz.
      destruct Hz as [<- | Hz]; [lia|].
      rewrite Forall_forall in Hy. apply Hy. exact Hz.
Qed.

Lemma order_by_desc_descending {A} (f : A -> Z) l : descending f (order_by_desc f l).
Proof.
  induction l as [|x l IH]; simpl.
  - constructor.
  - apply insert_desc_descending. exact IH.
Qed.

Lemma descending_skipn {A} (f : A -> Z) n l : descending f l -> descending f (skipn n l).
Proof.
  unfold descending. revert l. induction n as [|n IH]; intros l H; simpl; auto.
  destruct l as [|x l]; auto. inversion H; subst. apply IH. assumption.
Qed.

Lemma descending_firstn {A} (f : A -> Z) n l : descending f l -> descending f (firstn n l).
Proof.
  unfold descending. revert l. induction n as [|n IH]; intros l H; simpl.
  - constructor.
  - destruct l as [|x l]; [constructor|]. inversion H as [|? ? Hl Hx]; subst.
    constructor; [apply IH; exact Hl|].
    rewrite Forall_forall in *. intros y Hy. apply Hx.
    rewrite <- (firstn_skipn n l). apply in_or_app. left. exact Hy.
Qed.

Lemma descending_window {A} (f : A -> Z) limit offset l :
  descending f l -> descending f (window limit offset l).
Proof. intros H. apply descending_firstn, descending_skipn, H. Qed.

Lemma effective_limit_range limit : 1 <= effective_limit limit <= 100.
Proof. unfold effective_limit. destruct (limit <=? 0) eqn:H; [lia|]. apply Z.leb_gt in H. lia. Qed.

(** With the limit the service passes on, LIMIT and OFFSET cut a window
    that starts at the offset, or at 0 for a negative offset. *)
Lemma limit_offset_window {A} limit offset (rows : list A) :
  let limit' := if limit <=? 0 then 50 else limit in
  let limit'' := if 100 <? limit' then 100 else limit' in
  limit_offset limit'' offset rows
  = window (effective_limit limit) (effective_offset offset) rows.
Proof.
  intros limit' limit''. unfold limit_offset, window.
  assert (limit'' = effective_limit limit) as ->.
  { subst limit'' limit'. unfold effective_limit.
    destruct (limit <=? 0) eqn:H0; [reflexivity|].
    destruct (100 <? limit) eqn:H1; [apply Z.ltb_lt in H1 | apply Z.ltb_ge in H1]; lia. }
  pose proof (effective_limit_range limit) as Hr.
  destruct (effective_limit limit <? 0) eqn:Hneg; [apply Z.ltb_lt in Hneg; lia|].
  assert (Z.to_nat offset = Z.to_nat (effective_offset offset)) as ->; [|reflexivity].
  unfold effective_offset. lia.
Qed.

(** Between timestamps of one offset the order of the stored texts is
    the order of the instants. *)
Lemma descending_same_offset offset rows :
  same_offset offset rows ->
  descending timestamp_column rows -> descending instant_of rows.
Proof.
  unfold same_offset, descending. intros Hsame Hsorted.
  induction Hsorted as [|t rows Hrows IH Ht]; [constructor|].
  apply Forall_cons_iff in Hsame. destruct Hsame as [Hoff Hrest].
  constructor; [apply IH; exact Hrest|].
  rewrite Forall_forall in *. intros t' Hin.
  specialize (Ht t' Hin). specialize (Hrest t' Hin).
  unfold timestamp_column, timestamp_text_order, instant_of in *.
  rewrite Hoff, Hrest in Ht. lia.
Qed.

Lemma same_offset_window offset limit start rows :
  same_offset offset rows -> same_offset offset (window limit start rows).
Proof.
  unfold same_offset. intros H. apply Forall_forall. intros t Hin.
  rewrite Forall_forall in H. apply H.
  unfold window in Hin.
  rewrite <- (firstn_skipn (Z.to_nat start) rows). apply in_or_app. right.
  rewrite <- (firstn_skipn (Z.to_nat limit) (skipn (Z.to_nat start) rows)).
  apply in_or_app. left. exact Hin.
Qed.

(** For a tracked address and any limit and offset, the listing is a
    window of the records of the address in descending order of the
    stored timestamp texts: it starts at the offset, at 0 when the offset
    is negative, and holds at most [limit] rows, where a limit that is
    not positive counts as 50 and one above 100 as 100.  When the
    timestamps of the address all have one offset, the order is the
    descending order of their instants. *)
Lemma listing_is_window_in_stored_order address limit offset r :
  tracked address r ->
  exists sorted,
    Permutation sorted (records_of address r) /\
    descending timestamp_column sorted /\
    services.GetTransactions address limit offset r
    = Ok (window (effective_limit limit) (effective_offset offset) sorted) /\
    descending timestamp_column
      (window (effective_limit limit) (effective_offset offset) sorted) /\
    (forall z, same_offset z (records_of address r) ->
       descending instant_of
         (window (effective_limit limit) (effective_offset offset) sorted)) /\
    (Z.of_nat (List.length (window (effective_limit limit) (effective_offset offset) sorted))
     <= effective_limit limit <= 100) /\
    (limit <= 0 -> effective_limit limit = 50) /\
    (0 < limit <= 100 -> effective_limit limit = limit) /\
    (100 < limit -> effective_limit limit = 100) /\
    (offset < 0 -> effective_offset offset = 0) /\
    (0 <= offset -> effective_offset offset = offset).
Proof.
  intros Htracked.
  exists (order_by_desc timestamp_column (records_of address r)).
  pose proof (order_by_desc_descending timestamp_column (records_of address r)) as Hdesc.
  pose proof (order_by_desc_Permutation timestamp_column (records_of address r)) as Hperm.
  split; [exact Hperm|]. split; [exact Hdesc|]. split.
  { unfold services.GetTransactions. apply GetAddress_tracked in Htracked.
    destruct Htracked as [a ->]. unfold GetTransactionsByAddress.
    rewrite limit_offset_window. reflexivity. }
  split; [apply descending_window; exact Hdesc|].
  split.
  { intros z Hsame. apply (descending_same_offset z).
    - apply same_offset_window. unfold same_offset in *.
      apply (Permutation_Forall (Permutation_sym Hperm)). exact Hsame.
    - apply descending_window. exact Hdesc. }
  pose proof (effective_limit_range limit) as Hr.
  split.
  { split; [|lia]. unfold window. rewrite length_firstn. lia. }
  unfold effective_limit, effective_offset.
  repeat split; intros.
  - destruct (limit <=? 0) eqn:H0; [reflexivity | apply Z.leb_gt in H0; lia].
  - destruct (limit <=? 0) eqn:H0; [apply Z.leb_le in H0; lia | lia].
  - destruct (limit <=? 0) eqn:H0; [apply Z.leb_le in H0; lia | lia].
  - lia.
  - lia.
Qed.

(** C9, on timestamps with different offsets.  The upstream reports z20
    at instant 20 in UTC, z10 at instant 10 at +01:00 and z15 at instant
    15 in UTC.  The limit and the offset do what is stated: a limit that
    is not positive counts as 50, a negative offset as 0, and the window
    is cut as asked.  But the listing is in the order of the stored
    texts, the clock reading 01:00 of z10 first: z10, z20, z15, which is
    not the descending order of the timestamps. *)
Theorem listing_follows_stored_text :
  tracked addrA synced_mixed_offsets /\
  services.GetTransactions addrA 50 0 synced_mixed_offsets
  = Ok [Transaction.Build 2 "z10" addrA 1 6 1 (ZonedTime.Build 10 3600) "received";
        Transaction.Build 1 "z20" addrA 1 6 1 20 "received";
        Transaction.Build 3 "z15" addrA 1 6 1 15 "received"] /\
  (forall rows,
     services.GetTransactions addrA 50 0 synced_mixed_offsets = Ok rows ->
     map instant_of rows = [10; 20; 15] /\ ~ descending instant_of rows) /\
  services.GetTransactions addrA 0 (-1) synced_mixed_offsets
  = services.GetTransactions addrA 50 0 synced_mixed_offsets /\
  services.GetTransactions addrA 1 1 synced_mixed_offsets
  = Ok [Transaction.Build 1 "z20" addrA 1 6 1 20 "received"].
Proof.
  split; [reflexivity|]. split; [reflexivity|]. split; [|split; reflexivity].
  intros rows Hrows. vm_compute in Hrows. injection Hrows as <-.
  split; [reflexivity|].
  unfold descending. intros Hsorted.
  inversion Hsorted as [|? ? _ Hfirst]; subst.
  inversion Hfirst as [|? ? Hle _]; subst.
  vm_compute in Hle. apply Hle. reflexivity.
Qed.

(** ** C7 *)

Lemma sync_each_in_turn client now addrs : forall errors r,
  exists results errors' r',
    synced_in_turn client now addrs r results r' /\
    List.length results = List.length addrs /\
    services.sync_each client now addrs errors r = (Ok errors', r') /\
    Z.of_nat (List.length errors') = Z.of_nat (List.length errors) + failures results.
Proof.
  induction addrs as [|addr rest IH]; intros errors r.
  - exists [], errors, r. simpl. unfold failures. simpl.
    repeat split; [constructor | lia].
  - simpl.
    destruct (services.SyncAddress client (Address.Address addr) (now (Address.Address addr)) r)
      as [res r1] eqn:Hsync.
    destruct res as [n|err].
    + destruct (IH errors r1) as (results & errors' & r' & Hturn & Hlen & Hrun & Hcount).
      exists (Ok n :: results), errors', r'.
      split; [econstructor; eauto|]. split; [simpl; congruence|]. split; [exact Hrun|].
      unfold failures in *. simpl. exact Hcount.
    + destruct (IH (errors ++ [Wrap ("sync failed for " ++ Address.Address addr)%string err]) r1)
        as (results & errors' & r' & Hturn & Hlen & Hrun & Hcount).
      exists (Err err :: results), errors', r'.
      split; [econstructor; eauto|]. split; [simpl; congruence|]. split; [exact Hrun|].
      unfold failures in *. simpl. rewrite length_app in Hcount. simpl in Hcount.
      simpl List.length. lia.
Qed.

Lemma failures_zero_iff {A} (results : list (result A)) :
  failures results = 0 <-> Forall (fun res => is_ok res = true) results.
Proof.
  unfold failures. induction results as [|res l IH]; simpl.
  - split; auto.
  - destruct res as [a|e]; simpl.
    + rewrite IH. split; [intros H; constructor; auto | intros H; inversion H; auto].
    + split; [lia | intros H; inversion H; discriminate].
Qed.

Lemma failures_nonneg {A} (results : list (result A)) : 0 <= failures results.
Proof. unfold failures. lia. Qed.

(** C7. [SyncAllAddresses] synchronises every tracked address once, in
    the order of the listing, each from the database the one before left
    and whether or not an earlier one failed.  It succeeds exactly when no
    address failed; otherwise its error is the number of addresses that
    failed, and none of their errors. *)
Theorem sync_all_counts_failures client now r :
  exists results r',
    synced_in_turn client now (order_by_desc Address.CreatedAt (addresses r)) r results r' /\
    GetAllAddresses r = Ok (order_by_desc Address.CreatedAt (addresses r)) /\
    List.length results = List.length (addresses r) /\
    services.SyncAllAddresses client now r
    = ((if failures results =? 0 then Ok tt
        else Err (SyncCompletedWithErrors (failures results))), r') /\
    (fst (services.SyncAllAddresses client now r) = Ok tt
     <-> Forall (fun res => is_ok res = true) results).
Proof.
  destruct (sync_each_in_turn client now (order_by_desc Address.CreatedAt (addresses r)) [] r)
    as (results & errors' & r' & Hturn & Hlen & Hrun & Hcount).
  exists results, r'. simpl in Hcount.
  assert (services.SyncAllAddresses client now r
          = ((if failures results =? 0 then Ok tt
              else Err (SyncCompletedWithErrors (failures results))), r')) as Hall.
  { unfold services.SyncAllAddresses, bind, annotate, query, GetAllAddresses. simpl.
    rewrite Hrun, Hcount. pose proof (failures_nonneg results) as Hn.
    destruct (failures results =? 0) eqn:H0.
    - apply Z.eqb_eq in H0. rewrite H0. reflexivity.
    - apply Z.eqb_neq in H0.
      assert ((0 <? failures results) = true) as -> by (apply Z.ltb_lt; lia).
      reflexivity. }
  split; [exact Hturn|]. split; [reflexivity|]. split.
  { rewrite Hlen. apply Permutation_length. apply order_by_desc_Permutation. }
  split; [exact Hall|].
  rewrite Hall, <- failures_zero_iff. simpl.
  destruct (failures results =? 0) eqn:H0.
  - apply Z.eqb_eq in H0. tauto.
  - apply Z.eqb_neq in H0. split; [discriminate | contradiction].
Qed.

(** Two tracked addresses and an upstream out of reach for one of them:
    the records of the other are stored and one failure is reported. *)
Example sync_all_one_failure :
  let client := clients.BlockchairClient (answering_for addrA (three_events 10 20 30)) in
  let r := snd (repository.AddAddress addrB "" 1 (tracking addrA)) in
  fst (services.SyncAllAddresses client (fun _ => 40) r) = Err (SyncCompletedWithErrors 1) /\
  List.length (records_of addrA (snd (services.SyncAllAddresses client (fun _ => 40) r))) = 3%nat /\
  map Address.Address (order_by_desc Address.CreatedAt (addresses r)) = [addrB; addrA].
Proof. vm_compute. repeat split. Qed.

(** ** C8 *)

Lemma classify_direction address ev :
  let tx := clients.classify address ev in
  (Transaction.Type_ tx = "sent" <-> BlockchairTransaction.BalanceChange ev < 0) /\
  (Transaction.Type_ tx = "received" <-> 0 <= BlockchairTransaction.BalanceChange ev).
Proof.
  unfold clients.classify. simpl.
  destruct (BlockchairTransaction.BalanceChange ev <? 0) eqn:H;
    [apply Z.ltb_lt in H | apply Z.ltb_ge in H];
    (split; split; intros H'; try discriminate; try reflexivity; lia).
Qed.

Lemma classify_confirmations address ev :
  let tx := clients.classify address ev in
  (Transaction.Confirmations tx = 0 <-> BlockchairTransaction.BlockID ev = 0) /\
  (BlockchairTransaction.BlockID ev <> 0 -> Transaction.Confirmations tx = 6).
Proof.
  unfold clients.classify. simpl.
  destruct (BlockchairTransaction.BlockID ev =? 0) eqn:H;
    [apply Z.eqb_eq in H | apply Z.eqb_neq in H];
    (split; [split|]; intros H'; try discriminate; try reflexivity; try contradiction; lia).
Qed.

Lemma no_record_no_key address r hash :
  records_of address r = [] -> ~ In (hash, address) (map key (transactions r)).
Proof.
  unfold records_of. intros Hnone Hin.
  apply in_map_iff in Hin. destruct Hin as [t [Hk Hin]].
  assert (In t (filter (of_address address) (transactions r))) as Hf.
  { apply filter_In. split; [exact Hin|].
    unfold of_address. injection Hk as _ ->. apply String.eqb_refl. }
  rewrite Hnone in Hf. exact Hf.
Qed.

(** The three events on a database with no record of the address. *)
Lemma three_events_stored address r t1 t2 t3 now :
  tracked address r ->
  records_of address r = [] ->
  transactions
    (snd (services.SyncAddress (clients.BlockchairClient (answering (three_events t1 t2 t3)))
            address now r))
  = transactions r ++
    [Transaction.Build (transactions_seq r + 1) "h1" address 500000000 6 800000 t1 "received";
     Transaction.Build (transactions_seq r + 2) "h2" address (-200000000) 6 800010 t2 "sent";
     Transaction.Build (transactions_seq r + 3) "h3" address 100000000 0 0 t3 "received"] /\
  fst (services.SyncAddress (clients.BlockchairClient (answering (three_events t1 t2 t3)))
         address now r) = Ok 3.
Proof.
  intros Htracked Hnone.
  rewrite SyncAddress_unfold.
  pose proof Htracked as Hget. apply GetAddress_tracked in Hget. destruct Hget as [a ->].
  simpl clients.GetTransactions. unfold clients.BlockchairClient_GetTransactions, answering.
  simpl negb. cbv iota. unfold three_events. simpl map.
  (* h1 *)
  rewrite save_new_cons.
  destruct (0 <? _) eqn:E1; [apply key_present_iff, no_record_no_key in E1; tauto|]. clear E1.
  destruct (SaveTransaction_absent
              (clients.classify address (event "h1" 500000000 800000 t1)) r
              (or_intror Htracked) (no_record_no_key address r "h1" Hnone))
    as (r1 & -> & Htxs1 & Ha1 & Hf1 & Hs1).
  (* h2 *)
  rewrite save_new_cons.
  assert (~ In ("h2", address) (map key (transactions r1))) as Habs2.
  { rewrite Htxs1, map_app. intros Hin. apply in_app_or in Hin. destruct Hin as [Hin|Hin].
    - exact (no_record_no_key address r "h2" Hnone Hin).
    - simpl in Hin. destruct Hin as [Hin|[]]. discriminate. }
  destruct (0 <? _) eqn:E2; [apply key_present_iff in E2; contradiction|]. clear E2.
  assert (foreign_keys r1 = false \/ tracked address r1) as Hfk1.
  { right. unfold tracked, has_address. rewrite Ha1. exact Htracked. }
  destruct (SaveTransaction_absent
              (clients.classify address (event "h2" (-200000000) 800010 t2)) r1 Hfk1 Habs2)
    as (r2 & -> & Htxs2 & Ha2 & Hf2 & Hs2).
  (* h3 *)
  rewrite save_new_cons.
  assert (~ In ("h3", address) (map key (transactions r2))) as Habs3.
  { rewrite Htxs2, Htxs1, !map_app. intros Hin.
    apply in_app_or in Hin. destruct Hin as [Hin|Hin];
      [apply in_app_or in Hin; destruct Hin as [Hin|Hin]|].
    - exact (no_record_no_key address r "h3" Hnone Hin).
    - simpl in Hin. destruct Hin as [Hin|[]]. discriminate.
    - simpl in Hin. destruct Hin as [Hin|[]]. discriminate. }
  destruct (0 <? _) eqn:E3; [apply key_present_iff in E3; contradiction|]. clear E3.
  assert (foreign_keys r2 = false \/ tracked address r2) as Hfk2.
  { right. unfold tracked, has_address. rewrite Ha2, Ha1. exact Htracked. }
  destruct (SaveTransaction_absent
              (clients.classify address (event "h3" 100000000 0 t3)) r2 Hfk2 Habs3)
    as (r3 & -> & Htxs3 & Ha3 & Hf3 & Hs3).
  simpl. rewrite Htxs3, Htxs2, Htxs1, Hs2, Hs1, <- !app_assoc. simpl.
  split; [|reflexivity].
  replace (transactions_seq r + 1 + 1 + 1) with (transactions_seq r + 3) by lia.
  replace (transactions_seq r + 1 + 1) with (transactions_seq r + 2) by lia.
  reflexivity.
Qed.

Lemma SyncAddress_keeps_tracked httpGet address now r :
  tracked address r ->
  tracked address
    (snd (services.SyncAddress (clients.BlockchairClient httpGet) address now r)).
Proof.
  intros Htracked.
  destruct (clients.GetTransactions (clients.BlockchairClient httpGet) address 100)
    as [fetched|e] eqn:Hfetch.
  - destruct (SyncAddress_fetched httpGet address now r fetched Htracked Hfetch)
      as (added & r1 & _ & -> & _ & Ha & _).
    cbn [snd]. unfold tracked. rewrite has_address_UpdateLastSynced.
    unfold has_address. rewrite Ha. exact Htracked.
  - rewrite SyncAddress_unfold, Hfetch.
    pose proof Htracked as Hget. apply GetAddress_tracked in Hget. destruct Hget as [a ->].
    exact Htracked.
Qed.

Lemma no_record_filter (p : Transaction.t -> bool) address r :
  (forall t, p t = true -> of_address address t = true) ->
  records_of address r = [] ->
  filter p (transactions r) = [].
Proof.
  unfold records_of. intros Hp Hnone. apply filter_none. apply Forall_forall. intros t Hin.
  destruct (p t) eqn:Hpt; [|reflexivity].
  assert (In t (filter (of_address address) (transactions r))) as Hf.
  { apply filter_In. auto. }
  rewrite Hnone in Hf. destruct Hf.
Qed.

(** C8. The adapter classifies an event as sent exactly when its balance
    change is negative and as received otherwise, with no confirmation
    exactly when its block id is 0 and with 6 for any other block id.
    After the three events are synchronised into a database that tracks
    the address and holds no record of it, the address has three records,
    h1 and h2 with 6 confirmations and h3 with none, and its balance is
    300000000 confirmed, 100000000 unconfirmed, 400000000 in total. *)
Theorem classification_and_three_events address r t1 t2 t3 now :
  tracked address r ->
  records_of address r = [] ->
  (forall a ev,
     let tx := clients.classify a ev in
     (Transaction.Type_ tx = "sent" <-> BlockchairTransaction.BalanceChange ev < 0) /\
     (Transaction.Type_ tx = "received" <-> 0 <= BlockchairTransaction.BalanceChange ev) /\
     (Transaction.Confirmations tx = 0 <-> BlockchairTransaction.BlockID ev = 0) /\
     (BlockchairTransaction.BlockID ev <> 0 -> Transaction.Confirmations tx = 6)) /\
  let r' := snd (services.SyncAddress
                   (clients.BlockchairClient (answering (three_events t1 t2 t3)))
                   address now r) in
  records_of address r'
  = [Transaction.Build (transactions_seq r + 1) "h1" address 500000000 6 800000 t1 "received";
     Transaction.Build (transactions_seq r + 2) "h2" address (-200000000) 6 800010 t2 "sent";
     Transaction.Build (transactions_seq r + 3) "h3" address 100000000 0 0 t3 "received"] /\
  services.GetBalance address r'
  = Ok (Balance.Build address 300000000 100000000 400000000
          (S754_finite false 4503599627370496 (-50))).
Proof.
  intros Htracked Hnone. split.
  { intros a ev tx. subst tx.
    pose proof (classify_direction a ev) as [H1 H2].
    pose proof (classify_confirmations a ev) as [H3 H4]. auto. }
  intros r'.
  destruct (three_events_stored address r t1 t2 t3 now Htracked Hnone) as [Htxs _].
  fold r' in Htxs.
  pose proof (SyncAddress_keeps_tracked (answering (three_events t1 t2 t3)) address now r
                Htracked) as Htracked'.
  fold r' in Htracked'.
  assert (forall t, confirmed_of address t = true -> of_address address t = true) as Hc.
  { unfold confirmed_of. intros t H. apply andb_true_iff in H. tauto. }
  assert (forall t, unconfirmed_of address t = true -> of_address address t = true) as Hu.
  { unfold unconfirmed_of. intros t H. apply andb_true_iff in H. tauto. }
  split.
  - unfold records_of in *. rewrite Htxs, filter_app, Hnone. simpl.
    unfold of_address. simpl. rewrite String.eqb_refl. reflexivity.
  - unfold services.GetBalance. apply GetAddress_tracked in Htracked'.
    destruct Htracked' as [a ->]. unfold GetBalance, CalculateBalance.
    rewrite Htxs, !filter_app.
    rewrite (no_record_filter _ address r Hc Hnone), (no_record_filter _ address r Hu Hnone).
    simpl. unfold confirmed_of, unconfirmed_of, of_address. simpl.
    rewrite String.eqb_refl. reflexivity.
Qed.

Lemma classification_and_three_events_witness :
  tracked addrA (tracking addrA) /\
  records_of addrA (tracking addrA) = [] /\
  (forall a ev,
     let tx := clients.classify a ev in
     (Transaction.Type_ tx = "sent" <-> BlockchairTransaction.BalanceChange ev < 0) /\
     (Transaction.Type_ tx = "received" <-> 0 <= BlockchairTransaction.BalanceChange ev) /\
     (Transaction.Confirmations tx = 0 <-> BlockchairTransaction.BlockID ev = 0) /\
     (BlockchairTransaction.BlockID ev <> 0 -> Transaction.Confirmations tx = 6)) /\
  records_of addrA synced_three
  = [Transaction.Build 1 "h1" addrA 500000000 6 800000 10 "received";
     Transaction.Build 2 "h2" addrA (-200000000) 6 800010 20 "sent";
     Transaction.Build 3 "h3" addrA 100000000 0 0 30 "received"] /\
  services.GetBalance addrA synced_three
  = Ok (Balance.Build addrA 300000000 100000000 400000000
          (S754_finite false 4503599627370496 (-50))).
Proof.
  assert (tracked addrA (tracking addrA)) as H1 by reflexivity.
  assert (records_of addrA (tracking addrA) = []) as H2 by reflexivity.
  split; [exact H1|]. split; [exact H2|].
  exact (classification_and_three_events addrA (tracking addrA) 10 20 30 40 H1 H2).
Defined.

(** ** C10 *)

(** C10. Listing all addresses with their balances succeeds whatever the
    balance calculations do: every tracked address is in the answer, in
    the order of the listing, with the balance of the repository when its
    calculation succeeds and, when it fails, with the balance whose
    confirmed, unconfirmed and total parts and BTC value are all 0. *)
Theorem list_all_with_zero_on_failure r :
  exists entries,
    services.GetAllAddresses r = Ok entries /\
    map AddressWithBalance.Address entries = order_by_desc Address.CreatedAt (addresses r) /\
    Forall (fun entry =>
              let address := Address.Address (AddressWithBalance.Address entry) in
              match repository.GetBalance address r with
              | Ok balance => AddressWithBalance.Balance entry = balance
              | Err _ =>
                  AddressWithBalance.Balance entry
                  = Balance.Build address 0 0 0 (S754_zero false)
              end) entries.
Proof.
  exists (map (services.with_balance r) (order_by_desc Address.CreatedAt (addresses r))).
  split; [reflexivity|]. split.
  - rewrite map_map. simpl. apply map_id.
  - apply Forall_forall. intros entry Hin.
    apply in_map_iff in Hin. destruct Hin as [addr [<- _]].
    unfold services.with_balance. simpl.
    destruct (GetBalance (Address.Address addr) r); reflexivity.
Qed.

(** One address whose balance the repository computes and one for which
    SUM overflows: both are listed, the second with the zero balance. *)
Example list_all_two_tracked :
  (exists e, repository.GetBalance addrB two_tracked = Err e) /\
  option_map (map (fun entry =>
                     (Address.Address (AddressWithBalance.Address entry),
                      Balance.TotalBalance (AddressWithBalance.Balance entry),
                      AddressWithBalance.Balance entry)))
    (match services.GetAllAddresses two_tracked with Ok l => Some l | Err _ => None end)
  = Some [(addrB, 0, Balance.Build addrB 0 0 0 (S754_zero false));
          (addrA, 400000000,
           Balance.Build addrA 300000000 100000000 400000000
             (S754_finite false 4503599627370496 (-50)))].
Proof. split; [eexists|]; reflexivity. Qed.

(** ** C4 *)

Lemma step_foreign_keys r r' : step r r' -> foreign_keys r' = foreign_keys r.
Proof.
  intros H. destruct H.
  - unfold AddAddress. destruct (has_address address r); reflexivity.
  - unfold RemoveAddress, delete_address. destruct (_ =? 0); reflexivity.
  - reflexivity.
  - unfold SaveTransaction. destruct (_ && _); reflexivity.
Qed.

(** The pragma is a setting of the connection: no statement changes it. *)
Lemma steps_foreign_keys r r' : steps r r' -> foreign_keys r' = foreign_keys r.
Proof.
  induction 1 as [|r r' r'' Hstep _ IH]; [reflexivity|].
  rewrite IH. apply step_foreign_keys. exact Hstep.
Qed.

Lemma rows_affected address r :
  (Z.of_nat (List.length (filter (is_address address) (addresses r))) =? 0)
  = negb (has_address address r).
Proof.
  unfold has_address. induction (addresses r) as [|a l IH]; simpl; [reflexivity|].
  destruct (is_address address a); simpl; [reflexivity | exact IH].
Qed.

Lemma deleted_untracked address r :
  has_address address (snd (delete_address address r)) = false.
Proof.
  unfold has_address, delete_address. simpl.
  induction (addresses r) as [|a l IH]; simpl; [reflexivity|].
  destruct (is_address address a) eqn:Ha; simpl; [exact IH|].
  rewrite Ha. exact IH.
Qed.

(** Removing an address that is not tracked fails with "address not
    found" and changes nothing. *)
Lemma RemoveAddress_untracked address r :
  has_address address r = false ->
  fst (services.RemoveAddress address r) = Err (AddressNotFound address) /\
  addresses (snd (services.RemoveAddress address r)) = addresses r /\
  transactions (snd (services.RemoveAddress address r)) = transactions r.
Proof.
  intros H. unfold services.RemoveAddress, RemoveAddress.
  pose proof (rows_affected address r) as Hrows. rewrite H in Hrows. simpl in Hrows.
  unfold delete_address. rewrite Hrows. simpl.
  apply Z.eqb_eq in Hrows. rewrite Hrows. rewrite andb_false_r.
  split; [reflexivity|]. split; [|reflexivity].
  apply filter_all. apply Forall_forall. intros a Hin.
  unfold has_address in H. apply negb_true_iff.
  destruct (is_address address a) eqn:Ha; [|reflexivity].
  assert (existsb (is_address address) (addresses r) = true) as Hex.
  { apply existsb_exists. exists a. auto. }
  congruence.
Qed.

(** Removing a tracked address succeeds; the balance of the address then
    fails with "address not found"; its records go or stay with the pragma
    of the connection. *)
Lemma RemoveAddress_tracked address r :
  tracked address r ->
  let r' := snd (services.RemoveAddress address r) in
  fst (services.RemoveAddress address r) = Ok tt /\
  services.GetBalance address r'
  = Err (Wrap "address not being tracked" (AddressNotFound address)) /\
  (foreign_keys r = true ->
   records_of address r' = [] /\
   forall limit offset, GetTransactionsByAddress address limit offset r' = Ok []) /\
  (foreign_keys r = false -> transactions r' = transactions r).
Proof.
  intros Htracked r'. subst r'. unfold services.RemoveAddress, RemoveAddress.
  pose proof (rows_affected address r) as Hrows. rewrite Htracked in Hrows. simpl in Hrows.
  pose proof (deleted_untracked address r) as Hgone.
  destruct (delete_address address r) as [rows r'] eqn:Hdel.
  assert (rows = Z.of_nat (List.length (filter (is_address address) (addresses r)))) as Hr.
  { unfold delete_address in Hdel. injection Hdel as <- _. reflexivity. }
  rewrite Hr, Hrows. simpl in *. split; [reflexivity|]. split.
  { unfold services.GetBalance. rewrite (GetAddress_untracked address r' Hgone). reflexivity. }
  unfold delete_address in Hdel. injection Hdel as _ <-. simpl.
  assert ((0 <? Z.of_nat (List.length (filter (is_address address) (addresses r)))) = true) as ->.
  { apply Z.eqb_neq in Hrows. apply Z.ltb_lt. lia. }
  split; intros Hfk; rewrite Hfk; simpl; [|reflexivity].
  assert (filter (of_address address)
            (filter (fun t => negb (of_address address t)) (transactions r)) = []) as Hnone.
  { apply filter_none. apply Forall_forall. intros t Hin.
    apply filter_In in Hin. destruct Hin as [_ Hneg]. apply negb_true_iff. exact Hneg. }
  split; [exact Hnone|].
  intros limit offset. unfold GetTransactionsByAddress. simpl. rewrite Hnone.
  unfold limit_offset. simpl. rewrite skipn_nil, firstn_nil.
  destruct (limit <? 0); reflexivity.
Qed.

(** In every state of the program's own database, opened by
    [NewSQLiteRepository], removing a tracked address leaves its records
    in [transactions]. *)
Lemma RemoveAddress_leaves_records address r :
  steps NewSQLiteRepository r ->
  tracked address r ->
  fst (services.RemoveAddress address r) = Ok tt /\
  records_of address (snd (services.RemoveAddress address r)) = records_of address r.
Proof.
  intros Hsteps Htracked.
  destruct (RemoveAddress_tracked address r Htracked) as (Hok & _ & _ & Hstay).
  split; [exact Hok|]. unfold records_of. rewrite Hstay; [reflexivity|].
  apply (steps_foreign_keys _ _ Hsteps).
Qed.

(** C4, on the program's database. [addrA] is tracked and has the three
    records; its removal succeeds, and afterwards the balance of the
    address fails with "address not found", but the three records are
    still stored: the store lists them, and they count again in the
    balance once the address is registered anew, here while the upstream
    is out of reach.  Removing an address that is not tracked fails with
    "address not found". *)
Theorem remove_keeps_ledger_records :
  let r' := snd (services.RemoveAddress addrA synced_three) in
  foreign_keys synced_three = false /\
  fst (services.RemoveAddress addrA synced_three) = Ok tt /\
  GetTransactionsByAddress addrA 50 0 r'
  = Ok [Transaction.Build 3 "h3" addrA 100000000 0 0 30 "received";
        Transaction.Build 2 "h2" addrA (-200000000) 6 800010 20 "sent";
        Transaction.Build 1 "h1" addrA 500000000 6 800000 10 "received"] /\
  services.GetBalance addrA r'
  = Err (Wrap "address not being tracked" (AddressNotFound addrA)) /\
  services.GetBalance addrA
    (snd (services.AddAddress (clients.BlockchairClient out_of_reach) addrA "" 60 61 r'))
  = Ok (Balance.Build addrA 300000000 100000000 400000000
          (S754_finite false 4503599627370496 (-50))) /\
  fst (services.RemoveAddress addrA r') = Err (AddressNotFound addrA).
Proof. vm_compute. repeat split. Qed.

(** On a connection that enforces foreign keys the same removal takes the
    records along. *)
Example remove_cascades_when_enforced :
  let client := clients.BlockchairClient (answering (three_events 10 20 30)) in
  let r := snd (services.AddAddress client addrA "" 0 40 (connect true)) in
  List.length (records_of addrA r) = 3%nat /\
  fst (services.RemoveAddress addrA r) = Ok tt /\
  GetTransactionsByAddress addrA 50 0 (snd (services.RemoveAddress addrA r)) = Ok [].
Proof. vm_compute. repeat split. Qed.

(** * Further properties of the code *)

(** ** The table of addresses *)

Lemma has_address_false_iff address r :
  has_address address r = false <-> ~ In address (map Address.Address (addresses r)).
Proof.
  unfold has_address. induction (addresses r) as [|a l IH]; simpl.
  - tauto.
  - unfold is_address at 1. destruct (Address.Address a =? address)%string eqn:E; simpl.
    + apply String.eqb_eq in E. split; [discriminate | tauto].
    + apply String.eqb_neq in E. rewrite IH. tauto.
Qed.

Lemma has_address_true_iff address r :
  has_address address r = true <-> In address (map Address.Address (addresses r)).
Proof.
  pose proof (has_address_false_iff address r) as H.
  destruct (has_address address r).
  - split; auto. intros _.
    destruct (in_dec string_dec address (map Address.Address (addresses r))) as [Hin|Hin]; auto.
    apply H in Hin. discriminate.
  - split; [discriminate|]. intros Hin. exfalso. apply (proj1 H); auto.
Qed.

Lemma distinct_after_filter {A B} (f : A -> B) (keep : A -> bool) : forall rows,
  NoDup (map f rows) -> NoDup (map f (filter keep rows)).
Proof.
  intros rows. induction rows as [|x rows IH]; simpl; intros H; [constructor|].
  apply NoDup_cons_iff in H. destruct H as [Hx Hrows].
  destruct (keep x); simpl; [|auto].
  apply NoDup_cons_iff. split; [|auto].
  rewrite in_map_iff. intros [y [Hy Hin]]. apply Hx.
  rewrite in_map_iff. exists y. apply filter_In in Hin. tauto.
Qed.

Lemma set_last_synced_address address syncTime l :
  map Address.Address (map (set_last_synced address syncTime) l) = map Address.Address l.
Proof.
  induction l as [|a l IH]; simpl; [reflexivity|].
  rewrite IH. unfold set_last_synced. destruct (is_address address a); reflexivity.
Qed.

Lemma set_last_synced_id address syncTime l :
  map Address.ID (map (set_last_synced address syncTime) l) = map Address.ID l.
Proof.
  induction l as [|a l IH]; simpl; [reflexivity|].
  rewrite IH. unfold set_last_synced. destruct (is_address address a); reflexivity.
Qed.

Lemma step_unique_addresses r r' : step r r' -> unique_addresses r -> unique_addresses r'.
Proof.
  unfold unique_addresses. intros Hstep H. destruct Hstep.
  - unfold AddAddress. destruct (has_address address r) eqn:Hhas; simpl; [exact H|].
    rewrite map_app. simpl. apply NoDup_app; [exact H | repeat constructor; simpl; tauto |].
    intros a Hin [<- | []]. apply has_address_false_iff in Hhas. contradiction.
  - unfold RemoveAddress, delete_address. destruct (_ =? 0); simpl;
      apply distinct_after_filter; exact H.
  - simpl. rewrite set_last_synced_address. exact H.
  - unfold SaveTransaction. destruct (_ && _); simpl; exact H.
Qed.

(** X1. The UNIQUE constraint on [addresses.address]: in every reachable
    state no two rows of [addresses] have the same address, and every
    statement and every method of the service keeps it so; a second
    insert of an address fails and changes nothing. *)
Theorem addresses_stay_unique r :
  reachable r ->
  unique_addresses r /\
  (forall client op, unique_addresses (run client op r)) /\
  (forall address label label' t t',
     let r1 := snd (repository.AddAddress address label t r) in
     repository.AddAddress address label' t' r1
     = (Err (Wrap "failed to add address" (SqlError ConstraintUnique)), r1)).
Proof.
  intros [fk Hreach].
  assert (forall a b, steps a b -> unique_addresses a -> unique_addresses b) as Hsteps.
  { induction 1 as [|x y z Hstep _ IH]; auto. intros H. apply IH.
    eapply step_unique_addresses; eauto. }
  assert (unique_addresses r) as H by (apply (Hsteps _ _ Hreach); constructor).
  split; [exact H|]. split.
  - intros client op. apply (Hsteps r); [apply run_steps | exact H].
  - intros address label label' t t' r1.
    assert (has_address address r1 = true) as Hhas.
    { subst r1. unfold repository.AddAddress.
      destruct (has_address address r) eqn:E; simpl; [exact E|].
      apply has_address_true_iff. simpl. rewrite map_app. apply in_or_app. right. simpl. auto. }
    unfold repository.AddAddress at 1. rewrite Hhas. reflexivity.
Qed.

Lemma addresses_stay_unique_witness :
  reachable two_tracked /\
  unique_addresses two_tracked /\
  (forall client op, unique_addresses (run client op two_tracked)) /\
  (forall address label label' t t',
     let r1 := snd (repository.AddAddress address label t two_tracked) in
     repository.AddAddress address label' t' r1
     = (Err (Wrap "failed to add address" (SqlError ConstraintUnique)), r1)).
Proof.
  assert (reachable two_tracked) as H.
  { exists false. unfold two_tracked.
    eapply steps_trans; apply AddAddress_steps. }
  split; [exact H|].
  exact (addresses_stay_unique two_tracked H).
Defined.

(** ** The ids of the rows *)

Lemma Forall_filter_keep {A} (P : A -> Prop) (keep : A -> bool) l :
  Forall P l -> Forall P (filter keep l).
Proof.
  intros H. apply Forall_forall. intros x Hin. apply filter_In in Hin.
  rewrite Forall_forall in H. apply H. tauto.
Qed.

Lemma distinct_after_append {A} (f : A -> Z) (bound : Z) (l : list A) (x : A) :
  NoDup (map f l) -> Forall (fun y => f y <= bound) l -> bound < f x ->
  NoDup (map f (l ++ [x])).
Proof.
  intros Hnd Hle Hx. rewrite map_app. simpl.
  apply NoDup_app; [exact Hnd | repeat constructor; simpl; tauto |].
  intros z Hin [<- | []]. apply in_map_iff in Hin. destruct Hin as [y [Hy Hin]].
  rewrite Forall_forall in Hle. specialize (Hle y Hin). lia.
Qed.

Lemma step_ids_in_sequence r r' : step r r' -> ids_in_sequence r -> ids_in_sequence r'.
Proof.
  unfold ids_in_sequence. intros Hstep (Ha & Hab & Ht & Htb). destruct Hstep.
  - unfold AddAddress. destruct (has_address address r); simpl; [auto|].
    split; [|split; [|auto]].
    + apply (distinct_after_append Address.ID (addresses_seq r)); simpl; auto; lia.
    + apply Forall_app. split.
      * eapply Forall_impl; [|exact Hab]. simpl. intros; lia.
      * repeat constructor. simpl. lia.
  - unfold RemoveAddress, delete_address. destruct (_ =? 0); simpl;
      (split; [apply distinct_after_filter; exact Ha|];
       split; [apply Forall_filter_keep; exact Hab|];
       destruct (_ && _);
       [split; [apply distinct_after_filter; exact Ht | apply Forall_filter_keep; exact Htb]
       | auto]).
  - simpl. rewrite set_last_synced_id. split; [exact Ha|]. split; [|auto].
    apply Forall_forall. intros a Hin. apply in_map_iff in Hin. destruct Hin as [b [<- Hin]].
    rewrite Forall_forall in Hab. specialize (Hab b Hin).
    unfold set_last_synced. destruct (is_address address b); exact Hab.
  - unfold SaveTransaction. destruct (_ && _); simpl; [auto|].
    split; [exact Ha|]. split; [exact Hab|]. split.
    + apply (distinct_after_append Transaction.ID (transactions_seq r)).
      * apply distinct_after_filter. exact Ht.
      * apply Forall_filter_keep. exact Htb.
      * simpl. lia.
    + apply Forall_app. split.
      * apply Forall_filter_keep. eapply Forall_impl; [|exact Htb]. simpl. intros; lia.
      * repeat constructor. simpl. lia.
Qed.

Lemma steps_ids_in_sequence r r' : steps r r' -> ids_in_sequence r -> ids_in_sequence r'.
Proof.
  induction 1 as [|x y z Hstep _ IH]; auto.
  intros H. apply IH. eapply step_ids_in_sequence; eauto.
Qed.

(** After one statement a row of [transactions] is a row that was there
    or has an id above the counter as it was. *)
Lemma step_rows r r' :
  step r r' ->
  transactions_seq r <= transactions_seq r' /\
  Forall (fun t' => In t' (transactions r) \/ transactions_seq r < Transaction.ID t')
         (transactions r').
Proof.
  assert (Forall (fun t' => In t' (transactions r) \/ transactions_seq r < Transaction.ID t')
                 (transactions r)) as Hsame.
  { apply Forall_forall. auto. }
  intros Hstep. destruct Hstep.
  - unfold AddAddress. destruct (has_address address r); simpl; (split; [lia | exact Hsame]).
  - unfold RemoveAddress, delete_address. destruct (_ =? 0); simpl;
      (split; [lia|]; destruct (_ && _); [apply Forall_filter_keep|]; exact Hsame).
  - simpl. split; [lia | exact Hsame].
  - unfold SaveTransaction. destruct (_ && _); simpl; [split; [lia | exact Hsame]|].
    split; [lia|]. apply Forall_app. split.
    + apply Forall_filter_keep. exact Hsame.
    + constructor; [right; simpl; lia | constructor].
Qed.

Lemma steps_rows r r' :
  steps r r' ->
  transactions_seq r <= transactions_seq r' /\
  Forall (fun t' => In t' (transactions r) \/ transactions_seq r < Transaction.ID t')
         (transactions r').
Proof.
  induction 1 as [r|r r1 r' Hstep _ IH].
  - split; [lia|]. apply Forall_forall. auto.
  - destruct (step_rows r r1 Hstep) as [Hle1 Hrows1]. destruct IH as [Hle Hrows].
    split; [lia|]. rewrite Forall_forall in *. intros t' Hin.
    destruct (Hrows t' Hin) as [Hin1 | Hnew]; [|right; lia].
    apply Hrows1. exact Hin1.
Qed.

(** X2. AUTOINCREMENT: in every reachable state the ids of the rows of
    each table are distinct and not above the counter of the table; an id
    is never given twice and a stored transaction is never changed in
    place, so whatever the program does afterwards, a row of
    [transactions] with the id of a row stored now is that row. *)
Theorem transaction_ids_denote_one_record r :
  reachable r ->
  ids_in_sequence r /\
  (forall r' t t',
     steps r r' -> In t (transactions r) -> In t' (transactions r') ->
     Transaction.ID t' = Transaction.ID t -> t' = t) /\
  (forall client op t t',
     In t (transactions r) -> In t' (transactions (run client op r)) ->
     Transaction.ID t' = Transaction.ID t -> t' = t).
Proof.
  intros [fk Hreach].
  assert (ids_in_sequence r) as Hids.
  { apply (steps_ids_in_sequence _ _ Hreach). unfold ids_in_sequence. simpl.
    repeat split; constructor. }
  assert (forall r' t t',
            steps r r' -> In t (transactions r) -> In t' (transactions r') ->
            Transaction.ID t' = Transaction.ID t -> t' = t) as Hsame.
  { intros r' t t' Hsteps Hin Hin' Hid.
    destruct Hids as (_ & _ & Hnd & Hle).
    destruct (steps_rows r r' Hsteps) as [_ Hrows].
    rewrite Forall_forall in Hrows, Hle.
    destruct (Hrows t' Hin') as [Hold | Hnew].
    - clear - Hnd Hin Hold Hid. induction (transactions r) as [|x l IH]; [destruct Hin|].
      simpl in Hnd. apply NoDup_cons_iff in Hnd. destruct Hnd as [Hx Hl].
      destruct Hin as [-> | Hin], Hold as [-> | Hold]; auto.
      + exfalso. apply Hx. rewrite <- Hid. apply in_map. exact Hold.
      + exfalso. apply Hx. rewrite Hid. apply in_map. exact Hin.
    - specialize (Hle t Hin). lia. }
  split; [exact Hids|]. split; [exact Hsame|].
  intros client op t t'. apply Hsame. apply run_steps.
Qed.

Lemma transaction_ids_denote_one_record_witness :
  reachable synced_three /\
  ids_in_sequence synced_three /\
  (forall r' t t',
     steps synced_three r' -> In t (transactions synced_three) -> In t' (transactions r') ->
     Transaction.ID t' = Transaction.ID t -> t' = t) /\
  (forall client op t t',
     In t (transactions synced_three) -> In t' (transactions (run client op synced_three)) ->
     Transaction.ID t' = Transaction.ID t -> t' = t).
Proof.
  assert (reachable synced_three) as H.
  { exists false. unfold synced_three, tracking.
    eapply steps_cons; [apply step_AddAddress | apply SyncAddress_steps]. }
  split; [exact H|].
  exact (transaction_ids_denote_one_record synced_three H).
Defined.

(** ** Registration *)

Lemma save_new_addresses address fetched : forall n r,
  addresses (snd (services.save_new address fetched n r)) = addresses r.
Proof.
  induction fetched as [|tx rest IH]; intros n r; [reflexivity|].
  rewrite save_new_cons. destruct (0 <? _); [apply IH|].
  assert (addresses (snd (SaveTransaction tx r)) = addresses r) as Hsave.
  { unfold SaveTransaction. destruct (_ && _); reflexivity. }
  destruct (SaveTransaction tx r) as [[u|e] r1]; simpl in *; [|exact Hsave].
  rewrite IH. exact Hsave.
Qed.

(** What a synchronisation, with any client, does to [addresses]. *)
Lemma SyncAddress_addresses client address now r :
  match fst (services.SyncAddress client address now r) with
  | Ok _ =>
      tracked address r /\
      addresses (snd (services.SyncAddress client address now r))
      = map (set_last_synced address now) (addresses r)
  | Err _ => addresses (snd (services.SyncAddress client address now r)) = addresses r
  end.
Proof.
  rewrite SyncAddress_unfold.
  destruct (GetAddress address r) as [a|e] eqn:Hget; [|reflexivity].
  destruct (clients.GetTransactions client address 100) as [fetched|e]; [|reflexivity].
  pose proof (save_new_addresses address fetched 0 r) as Hsame.
  destruct (services.save_new address fetched 0 r) as [[n|e] r1]; simpl in *; [|exact Hsame].
  rewrite Hsame. split; [|reflexivity].
  apply GetAddress_tracked. eauto.
Qed.

Lemma SyncAddress_tracked client address now r a :
  tracked a (snd (services.SyncAddress client address now r)) <-> tracked a r.
Proof.
  pose proof (SyncAddress_addresses client address now r) as H.
  unfold tracked. rewrite !has_address_true_iff.
  destruct (fst (services.SyncAddress client address now r)).
  - destruct H as [_ ->]. rewrite set_last_synced_address. tauto.
  - rewrite H. tauto.
Qed.

Lemma find_new_address address l (new : Address.t) :
  ~ In address (map Address.Address l) -> Address.Address new = address ->
  find (is_address address) (l ++ [new]) = Some new.
Proof.
  intros Hnot Hnew. induction l as [|a l IH]; simpl in *.
  - unfold is_address. rewrite Hnew, String.eqb_refl. reflexivity.
  - unfold is_address at 1. destruct (Address.Address a =? address)%string eqn:E.
    + apply String.eqb_eq in E. tauto.
    + apply IH. tauto.
Qed.

(** X3. Registration is not idempotent.  An address that fails the
    format check of the client, and an address that is already tracked,
    are refused with the database unchanged; and after an address has
    been registered, registering it again is refused in the same way,
    whatever the label and whatever the initial synchronisation did. *)
Theorem registration_refused client address label created_at now r :
  (clients.IsValidAddress client address = false ->
   services.AddAddress client address label created_at now r
   = (Err (InvalidAddress address), r)) /\
  (clients.IsValidAddress client address = true -> tracked address r ->
   services.AddAddress client address label created_at now r
   = (Err (AlreadyTracked address), r)) /\
  (clients.IsValidAddress client address = true ->
   forall label' created_at' now',
     let r1 := snd (services.AddAddress client address label created_at now r) in
     services.AddAddress client address label' created_at' now' r1
     = (Err (AlreadyTracked address), r1)).
Proof.
  assert (forall l c n s, clients.IsValidAddress client address = true -> tracked address s ->
            services.AddAddress client address l c n s = (Err (AlreadyTracked address), s))
    as Hdup.
  { intros l c n s Hvalid Htracked. unfold services.AddAddress. rewrite Hvalid. simpl.
    apply GetAddress_tracked in Htracked. destruct Htracked as [a ->]. reflexivity. }
  split; [|split].
  - intros Hvalid. unfold services.AddAddress. rewrite Hvalid. reflexivity.
  - apply Hdup.
  - intros Hvalid label' created_at' now' r1. apply Hdup; [exact Hvalid|].
    subst r1. unfold services.AddAddress. rewrite Hvalid. simpl.
    destruct (GetAddress address r) as [a|e] eqn:Hget.
    + apply GetAddress_tracked. eauto.
    + assert (has_address address r = false) as Hno.
      { destruct (has_address address r) eqn:E; [|reflexivity].
        apply GetAddress_tracked in E. destruct E as [a Ha]. congruence. }
      unfold repository.AddAddress. rewrite Hno. cbn [snd].
      apply SyncAddress_tracked. unfold tracked. apply has_address_true_iff.
      simpl. rewrite map_app. apply in_or_app. right. simpl. auto.
Qed.

(** X4. Registering an address that passes the format check and is not
    tracked succeeds whether or not the initial synchronisation does: the
    answer is the row as inserted, with the next id and no watermark;
    afterwards the address is tracked, with the watermark [now] when the
    initial synchronisation succeeded and none when it failed, and every
    address tracked before is still tracked. *)
Theorem registration_survives_sync_failure client address label created_at now r :
  clients.IsValidAddress client address = true ->
  has_address address r = false ->
  let inserted := Address.Build (addresses_seq r + 1) address label created_at None in
  let r1 := snd (repository.AddAddress address label created_at r) in
  let r' := snd (services.AddAddress client address label created_at now r) in
  services.AddAddress client address label created_at now r = (Ok inserted, r') /\
  tracked address r' /\
  (forall a, tracked a r -> tracked a r') /\
  last_synced address r'
  = (if is_ok (fst (services.SyncAddress client address now r1)) then Some now else None).
Proof.
  intros Hvalid Hno inserted r1 r'.
  assert (repository.AddAddress address label created_at r
          = (Ok inserted,
             Build (foreign_keys r) (addresses r ++ [inserted]) (addresses_seq r + 1)
                   (transactions r) (transactions_seq r))) as Hadd.
  { unfold repository.AddAddress. rewrite Hno. reflexivity. }
  assert (services.AddAddress client address label created_at now r
          = (Ok inserted, snd (services.SyncAddress client address now r1))) as Hrun.
  { unfold services.AddAddress. rewrite Hvalid. simpl.
    rewrite (GetAddress_untracked address r Hno). subst r1. rewrite Hadd. reflexivity. }
  assert (tracked address r1) as Htracked1.
  { subst r1. rewrite Hadd. unfold tracked. apply has_address_true_iff.
    simpl. rewrite map_app. apply in_or_app. right. simpl. auto. }
  assert (last_synced address r1 = None) as Hnone.
  { subst r1. rewrite Hadd. unfold last_synced. simpl.
    rewrite (find_new_address address (addresses r) inserted); [reflexivity | | reflexivity].
    apply has_address_false_iff. exact Hno. }
  subst r'. rewrite Hrun. cbn [snd]. split; [reflexivity|]. split; [|split].
  - apply SyncAddress_tracked. exact Htracked1.
  - intros a Ha. apply SyncAddress_tracked. subst r1. rewrite Hadd.
    unfold tracked in *. rewrite has_address_true_iff in *.
    simpl. rewrite map_app. apply in_or_app. left. exact Ha.
  - pose proof (SyncAddress_addresses client address now r1) as Haddr.
    destruct (fst (services.SyncAddress client address now r1)); simpl.
    + destruct Haddr as [_ Haddr]. unfold last_synced. rewrite Haddr.
      rewrite find_set_last_synced.
      apply has_address_find in Htracked1. destruct Htracked1 as [row Hrow].
      rewrite Hrow. simpl.
      apply find_some in Hrow. destruct Hrow as [_ Hrow].
      unfold set_last_synced. rewrite Hrow. reflexivity.
    + unfold last_synced in *. rewrite Haddr. exact Hnone.
Qed.

Lemma registration_survives_sync_failure_witness :
  clients.IsValidAddress (clients.BlockchairClient out_of_reach) addrB = true /\
  has_address addrB synced_three = false /\
  let inserted := Address.Build 2 addrB "savings" 60 None in
  let r' := snd (services.AddAddress (clients.BlockchairClient out_of_reach)
                   addrB "savings" 60 61 synced_three) in
  services.AddAddress (clients.BlockchairClient out_of_reach) addrB "savings" 60 61 synced_three
  = (Ok inserted, r') /\
  tracked addrB r' /\
  (forall a, tracked a synced_three -> tracked a r') /\
  last_synced addrB r' = None.
Proof.
  assert (clients.IsValidAddress (clients.BlockchairClient out_of_reach) addrB = true)
    as H1 by reflexivity.
  assert (has_address addrB synced_three = false) as H2 by reflexivity.
  split; [exact H1|]. split; [exact H2|].
  exact (registration_survives_sync_failure (clients.BlockchairClient out_of_reach)
           addrB "savings" 60 61 synced_three H1 H2).
Defined.

(** ** Addresses that are not tracked *)

Lemma delete_untracked address r :
  has_address address r = false -> snd (delete_address address r) = r.
Proof.
  intros H. destruct (RemoveAddress_untracked address r H) as (_ & Ha & Ht).
  unfold services.RemoveAddress, RemoveAddress in Ha, Ht.
  destruct (delete_address address r) as [rows r'] eqn:Hdel. simpl.
  assert (foreign_keys r' = foreign_keys r /\ addresses_seq r' = addresses_seq r /\
          transactions_seq r' = transactions_seq r) as (Hf & Hs & Hs').
  { unfold delete_address in Hdel. injection Hdel as _ <-. auto. }
  destruct (rows =? 0); simpl in Ha, Ht; destruct r, r'; simpl in *; congruence.
Qed.

(** X5. For an address that is not tracked, every method of the service
    that takes an address fails with "address not found" as its cause,
    before anything is fetched or written: the database is unchanged. *)
Theorem untracked_address_is_not_found client address now limit offset r :
  has_address address r = false ->
  (exists e, services.SyncAddress client address now r = (Err e, r) /\
             is_not_found address e) /\
  (exists e, services.RemoveAddress address r = (Err e, r) /\ is_not_found address e) /\
  (exists e, services.GetBalance address r = Err e /\ is_not_found address e) /\
  (exists e, services.GetTransactions address limit offset r = Err e /\
             is_not_found address e) /\
  (exists e, services.GetAddress address r = Err e /\ is_not_found address e).
Proof.
  intros H. pose proof (GetAddress_untracked address r H) as Hget.
  split; [|split; [|split; [|split]]].
  - eexists. rewrite SyncAddress_unfold, Hget. split; reflexivity.
  - exists (AddressNotFound address). split; [|reflexivity].
    unfold services.RemoveAddress, RemoveAddress.
    pose proof (delete_untracked address r H) as Hsame.
    pose proof (rows_affected address r) as Hrows. rewrite H in Hrows.
    destruct (delete_address address r) as [rows r'] eqn:Hdel. simpl in Hsame. subst r'.
    assert (rows = Z.of_nat (List.length (filter (is_address address) (addresses r)))) as ->.
    { unfold delete_address in Hdel. injection Hdel as <- _. reflexivity. }
    rewrite Hrows. reflexivity.
  - eexists. unfold services.GetBalance. rewrite Hget. split; reflexivity.
  - eexists. unfold services.GetTransactions. rewrite Hget. split; reflexivity.
  - eexists. unfold services.GetAddress. rewrite Hget. split; reflexivity.
Qed.

Lemma untracked_address_is_not_found_witness :
  has_address addrB synced_three = false /\
  services.SyncAddress (clients.BlockchairClient (answering (three_events 10 20 30)))
    addrB 50 synced_three
  = (Err (Wrap "address not being tracked" (AddressNotFound addrB)), synced_three) /\
  (exists e, services.SyncAddress (clients.BlockchairClient (answering (three_events 10 20 30)))
               addrB 50 synced_three = (Err e, synced_three) /\
             is_not_found addrB e) /\
  (exists e, services.RemoveAddress addrB synced_three = (Err e, synced_three) /\
             is_not_found addrB e) /\
  (exists e, services.GetBalance addrB synced_three = Err e /\ is_not_found addrB e) /\
  (exists e, services.GetTransactions addrB 10 0 synced_three = Err e /\
             is_not_found addrB e) /\
  (exists e, services.GetAddress addrB synced_three = Err e /\ is_not_found addrB e).
Proof.
  assert (has_address addrB synced_three = false) as H by reflexivity.
  split; [exact H|]. split; [reflexivity|].
  exact (untracked_address_is_not_found
           (clients.BlockchairClient (answering (three_events 10 20 30)))
           addrB 50 10 0 synced_three H).
Defined.

(** ** What one synchronisation writes *)

(** With the Blockchair adapter a synchronisation only appends rows, and
    rows of the address it synchronises. *)
Lemma SyncAddress_appends httpGet address now r :
  exists added,
    transactions (snd (services.SyncAddress (clients.BlockchairClient httpGet) address now r))
    = transactions r ++ added /\
    Forall (fun t => Transaction.Address t = address) added.
Proof.
  destruct (has_address address r) eqn:Htracked.
  - destruct (clients.GetTransactions (clients.BlockchairClient httpGet) address 100)
      as [fetched|e] eqn:Hfetch.
    + destruct (SyncAddress_fetched httpGet address now r fetched Htracked Hfetch)
        as (added & r1 & _ & -> & Htxs & _ & Hadded & _).
      exists added. split; [exact Htxs|].
      pose proof (Blockchair_address _ _ _ _ Hfetch) as Haddr.
      rewrite Forall_forall in *. intros t Hin.
      destruct (Hadded t Hin) as [_ Hkey].
      apply in_map_iff in Hkey. destruct Hkey as [tx [Hk Htx]].
      unfold key in Hk. injection Hk as _ Ha. rewrite <- Ha. apply Haddr. exact Htx.
    + exists []. rewrite SyncAddress_unfold, Hfetch.
      apply GetAddress_tracked in Htracked. destruct Htracked as [a ->].
      simpl. rewrite app_nil_r. auto.
  - exists []. rewrite SyncAddress_unfold, (GetAddress_untracked address r Htracked).
    simpl. rewrite app_nil_r. auto.
Qed.

Lemma last_synced_other address other syncTime l :
  other <> address ->
  option_map Address.LastSynced
    (find (is_address other) (map (set_last_synced address syncTime) l))
  = option_map Address.LastSynced (find (is_address other) l).
Proof.
  intros Hneq. rewrite find_set_last_synced.
  destruct (find (is_address other) l) as [a|] eqn:Hfind; [|reflexivity]. simpl.
  apply find_some in Hfind. destruct Hfind as [_ Ha].
  unfold is_address in Ha. apply String.eqb_eq in Ha.
  unfold set_last_synced, is_address.
  destruct (Address.Address a =? address)%string eqn:E; [|reflexivity].
  apply String.eqb_eq in E. congruence.
Qed.

Lemma last_synced_option address r :
  last_synced address r
  = match option_map Address.LastSynced (find (is_address address) (addresses r)) with
    | Some w => w
    | None => None
    end.
Proof. unfold last_synced. destruct (find _ _); reflexivity. Qed.

(** X6. A synchronisation of one address, whatever its outcome, leaves
    every other address alone: the records of the other address, its
    watermark and the set of tracked addresses are as before, and no
    stored row is removed or modified, the new rows all being rows of the
    synchronised address. *)
Theorem sync_touches_one_address httpGet address now r other :
  other <> address ->
  let r' := snd (services.SyncAddress (clients.BlockchairClient httpGet) address now r) in
  records_of other r' = records_of other r /\
  last_synced other r' = last_synced other r /\
  (forall a, tracked a r' <-> tracked a r) /\
  exists added,
    transactions r' = transactions r ++ added /\
    Forall (fun t => Transaction.Address t = address) added.
Proof.
  intros Hneq r'.
  destruct (SyncAddress_appends httpGet address now r) as (added & Htxs & Hadded).
  fold r' in Htxs. split; [|split; [|split]].
  - unfold records_of. rewrite Htxs, filter_app.
    rewrite (filter_none (of_address other) added), app_nil_r; [reflexivity|].
    eapply Forall_impl; [|exact Hadded]. simpl. intros t Ht.
    unfold of_address. rewrite Ht. apply String.eqb_neq. congruence.
  - pose proof (SyncAddress_addresses (clients.BlockchairClient httpGet) address now r) as Ha.
    fold r' in Ha. rewrite !last_synced_option.
    destruct (fst (services.SyncAddress (clients.BlockchairClient httpGet) address now r)).
    + destruct Ha as [_ ->]. rewrite last_synced_other by exact Hneq. reflexivity.
    + rewrite Ha. reflexivity.
  - intros a. apply SyncAddress_tracked.
  - exists added. auto.
Qed.

Lemma sync_touches_one_address_witness :
  addrB <> addrA /\
  let r' := snd (services.SyncAddress (clients.BlockchairClient h3_in_block) addrA 70
                   two_tracked) in
  records_of addrB r' = records_of addrB two_tracked /\
  last_synced addrB r' = last_synced addrB two_tracked /\
  (forall a, tracked a r' <-> tracked a two_tracked) /\
  exists added,
    transactions r' = transactions two_tracked ++ added /\
    Forall (fun t => Transaction.Address t = addrA) added.
Proof.
  assert (addrB <> addrA) as H by discriminate.
  split; [exact H|].
  exact (sync_touches_one_address h3_in_block addrA 70 two_tracked addrB H).
Defined.

(** X7. The count a successful synchronisation reports is the number of
    rows it added, and the rows added are one for each (hash, address)
    among the fetched records that was not stored, once each even when
    the upstream lists a hash twice; so the count is at most the number
    of fetched records. *)
Theorem saved_count_is_new_keys httpGet address now r fetched :
  tracked address r ->
  unique_keys r ->
  clients.GetTransactions (clients.BlockchairClient httpGet) address 100 = Ok fetched ->
  exists added r',
    services.SyncAddress (clients.BlockchairClient httpGet) address now r
    = (Ok (Z.of_nat (List.length added)), r') /\
    transactions r' = transactions r ++ added /\
    NoDup (map key added) /\
    (forall k, In k (map key added)
               <-> In k (map key fetched) /\ ~ In k (map key (transactions r))) /\
    Nat.le (List.length added) (List.length fetched).
Proof.
  intros Htracked Hunique Hfetch.
  destruct (SyncAddress_fetched httpGet address now r fetched Htracked Hfetch)
    as (added & r1 & _ & Hsync & Htxs & _ & Hadded & Hall).
  exists added, (snd (UpdateLastSynced address now r1)).
  assert (NoDup (map key added)) as Hnd.
  { assert (unique_keys (snd (services.SyncAddress (clients.BlockchairClient httpGet)
                                address now r))) as Hu.
    { eapply steps_unique_keys; [apply SyncAddress_steps | exact Hunique]. }
    rewrite Hsync in Hu. unfold unique_keys in Hu. simpl in Hu.
    rewrite Htxs, map_app in Hu. apply NoDup_app_remove_l in Hu. exact Hu. }
  assert (forall k, In k (map key added)
                    <-> In k (map key fetched) /\ ~ In k (map key (transactions r))) as Hiff.
  { intros k. split.
    - intros Hin. apply in_map_iff in Hin. destruct Hin as [t [<- Hin]].
      rewrite Forall_forall in Hadded. destruct (Hadded t Hin). auto.
    - intros [Hin Hnot]. apply in_map_iff in Hin. destruct Hin as [tx [<- Hin]].
      rewrite Forall_forall in Hall. specialize (Hall tx Hin).
      rewrite Htxs, map_app in Hall. apply in_app_or in Hall. tauto. }
  split; [exact Hsync|]. split; [exact Htxs|]. split; [exact Hnd|]. split; [exact Hiff|].
  rewrite <- (length_map key added), <- (length_map key fetched).
  apply NoDup_incl_length; [exact Hnd|].
  intros k Hin. apply Hiff in Hin. tauto.
Qed.

Lemma saved_count_is_new_keys_witness :
  tracked addrA h3_unconfirmed /\
  unique_keys h3_unconfirmed /\
  exists added r',
    services.SyncAddress
      (clients.BlockchairClient
         (answering (three_events 10 20 30 ++ three_events 11 21 31)))
      addrA 50 h3_unconfirmed
    = (Ok (Z.of_nat (List.length added)), r') /\
    transactions r' = transactions h3_unconfirmed ++ added /\
    NoDup (map key added) /\
    (forall k, In k (map key added)
               <-> In k (map key (map (clients.classify addrA)
                                      (three_events 10 20 30 ++ three_events 11 21 31))) /\
                   ~ In k (map key (transactions h3_unconfirmed))) /\
    Nat.le (List.length added)
           (List.length (map (clients.classify addrA)
                             (three_events 10 20 30 ++ three_events 11 21 31))).
Proof.
  assert (tracked addrA h3_unconfirmed) as H1 by reflexivity.
  assert (unique_keys h3_unconfirmed) as H2 by (vm_compute; repeat constructor; simpl; tauto).
  split; [exact H1|]. split; [exact H2|].
  exact (saved_count_is_new_keys
           (answering (three_events 10 20 30 ++ three_events 11 21 31)) addrA 50
           h3_unconfirmed _ H1 H2 eq_refl).
Defined.

(** Six fetched records with three hashes, one of them stored: two saved. *)
Example saved_count_with_repeats :
  fst (services.SyncAddress
         (clients.BlockchairClient
            (answering (three_events 10 20 30 ++ three_events 11 21 31)))
         addrA 50 h3_unconfirmed) = Ok 2.
Proof. reflexivity. Qed.

(** X8. With the Blockchair adapter the synchronisation of a tracked
    address succeeds exactly when the upstream answers with status 200
    and a body the decoder accepts; when it fails, the database is
    unchanged and the cause of the error is the transport, the decoder or
    a status other than 200, which the error carries. *)
Theorem sync_fails_only_upstream httpGet address now r :
  tracked address r ->
  let outcome := services.SyncAddress (clients.BlockchairClient httpGet) address now r in
  (is_ok (fst outcome) = true
   <-> exists events, httpGet address 100 = clients.Response 200 (Some events)) /\
  (forall e, fst outcome = Err e ->
     snd outcome = r /\
     (httpGet address 100 = clients.NoResponse /\ root_cause e = HttpError \/
      (exists status, httpGet address 100 = clients.Response status None /\
                      status = 200 /\ root_cause e = DecodeError) \/
      (exists status body, httpGet address 100 = clients.Response status body /\
                           status <> 200 /\ root_cause e = ApiStatus status))).
Proof.
  intros Htracked outcome.
  destruct (clients.GetTransactions (clients.BlockchairClient httpGet) address 100)
    as [fetched|e0] eqn:Hfetch.
  - destruct (SyncAddress_fetched httpGet address now r fetched Htracked Hfetch)
      as (added & r1 & _ & Hsync & _).
    subst outcome. rewrite Hsync. simpl. split; [|discriminate].
    split; [intros _|reflexivity].
    simpl in Hfetch. unfold clients.BlockchairClient_GetTransactions in Hfetch.
    destruct (httpGet address 100) as [|status [events|]]; try discriminate;
      destruct (negb (status =? 200)) eqn:E; try discriminate.
    apply negb_false_iff, Z.eqb_eq in E. subst. eauto.
  - subst outcome. rewrite SyncAddress_unfold, Hfetch.
    apply GetAddress_tracked in Htracked. destruct Htracked as [a ->]. simpl.
    simpl in Hfetch. unfold clients.BlockchairClient_GetTransactions in Hfetch.
    split.
    + split; [discriminate|]. intros [events Hev]. rewrite Hev in Hfetch. discriminate.
    + intros e He. injection He as <-. split; [reflexivity|].
      destruct (httpGet address 100) as [|status body].
      * injection Hfetch as <-. left. auto.
      * destruct (negb (status =? 200)) eqn:E.
        -- injection Hfetch as <-. right. right. exists status, body.
           apply negb_true_iff, Z.eqb_neq in E. auto.
        -- apply negb_false_iff, Z.eqb_eq in E.
           destruct body; [discriminate|]. injection Hfetch as <-.
           right. left. exists status. auto.
Qed.

Lemma sync_fails_only_upstream_witness :
  tracked addrA synced_three /\
  let outcome := services.SyncAddress
                   (clients.BlockchairClient (fun _ _ => clients.Response 503 None))
                   addrA 50 synced_three in
  fst outcome = Err (Wrap "failed to fetch transactions from API" (ApiStatus 503)) /\
  (is_ok (fst outcome) = true
   <-> exists events, clients.Response 503 None = clients.Response 200 (Some events)) /\
  (forall e, fst outcome = Err e ->
     snd outcome = synced_three /\
     (clients.Response 503 None = clients.NoResponse /\ root_cause e = HttpError \/
      (exists status, clients.Response 503 None = clients.Response status None /\
                      status = 200 /\ root_cause e = DecodeError) \/
      (exists status body, clients.Response 503 None = clients.Response status body /\
                           status <> 200 /\ root_cause e = ApiStatus status))).
Proof.
  assert (tracked addrA synced_three) as H by reflexivity.
  split; [exact H|]. split; [reflexivity|].
  exact (sync_fails_only_upstream (fun _ _ => clients.Response 503 None) addrA 50
           synced_three H).
Defined.

(** ** The watermarks after a synchronisation of all addresses *)

Lemma SyncAddress_sets_watermark client address now r :
  is_ok (fst (services.SyncAddress client address now r)) = true ->
  last_synced address (snd (services.SyncAddress client address now r)) = Some now.
Proof.
  intros Hok. pose proof (SyncAddress_addresses client address now r) as Ha.
  destruct (fst (services.SyncAddress client address now r)); [|discriminate].
  destruct Ha as [Htracked Ha]. unfold last_synced. rewrite Ha, find_set_last_synced.
  apply has_address_find in Htracked. destruct Htracked as [row Hrow]. rewrite Hrow. simpl.
  apply find_some in Hrow. destruct Hrow as [_ Hrow].
  unfold set_last_synced. rewrite Hrow. reflexivity.
Qed.

Lemma SyncAddress_keeps_watermark client (now : string -> Time) address r other :
  last_synced other r = Some (now other) ->
  last_synced other (snd (services.SyncAddress client address (now address) r))
  = Some (now other).
Proof.
  intros Hw. destruct (string_dec other address) as [-> | Hneq].
  - pose proof (SyncAddress_addresses client address (now address) r) as Ha.
    destruct (fst (services.SyncAddress client address (now address) r)) eqn:Hres.
    + apply SyncAddress_sets_watermark. rewrite Hres. reflexivity.
    + unfold last_synced in *. rewrite Ha. exact Hw.
  - pose proof (SyncAddress_addresses client address (now address) r) as Ha.
    rewrite last_synced_option in *.
    destruct (fst (services.SyncAddress client address (now address) r)).
    + destruct Ha as [_ ->]. rewrite last_synced_other by exact Hneq. exact Hw.
    + rewrite Ha. exact Hw.
Qed.

Lemma sync_each_watermarks client now addrs : forall errors r errors' r',
  services.sync_each client now addrs errors r = (Ok errors', r') ->
  List.length errors' = List.length errors ->
  forall address,
    In address (map Address.Address addrs) \/ last_synced address r = Some (now address) ->
    last_synced address r' = Some (now address).
Proof.
  induction addrs as [|addr rest IH]; intros errors r errors' r' Hrun Hlen address Hin.
  - simpl in Hrun. injection Hrun as _ <-. destruct Hin as [[] | Hw]. exact Hw.
  - simpl in Hrun.
    destruct (services.SyncAddress client (Address.Address addr) (now (Address.Address addr)) r)
      as [res r1] eqn:Hsync.
    destruct res as [n|e].
    + apply (IH errors r1 errors' r' Hrun Hlen).
      destruct Hin as [[<- | Hin] | Hw].
      * right. replace r1 with (snd (services.SyncAddress client (Address.Address addr)
                                       (now (Address.Address addr)) r))
          by (rewrite Hsync; reflexivity).
        apply SyncAddress_sets_watermark. rewrite Hsync. reflexivity.
      * left. exact Hin.
      * right. replace r1 with (snd (services.SyncAddress client (Address.Address addr)
                                       (now (Address.Address addr)) r))
          by (rewrite Hsync; reflexivity).
        apply SyncAddress_keeps_watermark. exact Hw.
    + exfalso.
      destruct (sync_each_in_turn client now rest
                  (errors ++ [Wrap ("sync failed for " ++ Address.Address addr)%string e]) r1)
        as (results & errors'' & r'' & _ & _ & Hrun' & Hcount).
      simpl in Hrun'. rewrite Hrun in Hrun'. injection Hrun' as <- _.
      pose proof (failures_nonneg results) as Hn.
      rewrite length_app in Hcount. simpl in Hcount. lia.
Qed.

(** X9. When [SyncAllAddresses] succeeds, with any client, the watermark
    of every tracked address is the time read while that address was
    synchronised. *)
Theorem sync_all_sets_every_watermark client now r :
  fst (services.SyncAllAddresses client now r) = Ok tt ->
  forall address,
    tracked address r ->
    last_synced address (snd (services.SyncAllAddresses client now r)) = Some (now address).
Proof.
  intros Hok address Htracked.
  destruct (sync_each_in_turn client now (order_by_desc Address.CreatedAt (addresses r)) [] r)
    as (results & errors' & r' & _ & _ & Hrun & _).
  unfold services.SyncAllAddresses, bind, annotate, query, GetAllAddresses in *.
  simpl in *. rewrite Hrun in *.
  destruct (0 <? Z.of_nat (List.length errors')) eqn:Hlen; simpl in *; [discriminate|].
  apply (sync_each_watermarks client now _ [] r errors' r' Hrun).
  - apply Z.ltb_ge in Hlen. simpl. lia.
  - left. apply has_address_true_iff in Htracked.
    apply (Permutation_in address
             (Permutation_map Address.Address
                (Permutation_sym (order_by_desc_Permutation Address.CreatedAt (addresses r))))).
    exact Htracked.
Qed.

Lemma sync_all_sets_every_watermark_witness :
  fst (services.SyncAllAddresses (clients.BlockchairClient two_ledgers)
         (fun a => if (a =? addrA)%string then 71 else 72) two_tracked) = Ok tt /\
  last_synced addrA two_tracked = Some 1 /\
  forall address,
    tracked address two_tracked ->
    last_synced address
      (snd (services.SyncAllAddresses (clients.BlockchairClient two_ledgers)
              (fun a => if (a =? addrA)%string then 71 else 72) two_tracked))
    = Some (if (address =? addrA)%string then 71 else 72).
Proof.
  assert (fst (services.SyncAllAddresses (clients.BlockchairClient two_ledgers)
                 (fun a => if (a =? addrA)%string then 71 else 72) two_tracked) = Ok tt)
    as H by reflexivity.
  split; [exact H|]. split; [reflexivity|].
  exact (sync_all_sets_every_watermark (clients.BlockchairClient two_ledgers)
           (fun a => if (a =? addrA)%string then 71 else 72) two_tracked H).
Defined.

(** ** The statements of the repository *)

Lemma find_filter_implied {A} (p keep : A -> bool) (l : list A) :
  (forall x, p x = true -> keep x = true) ->
  find p (filter keep l) = find p l.
Proof.
  intros Himp. induction l as [|x l IH]; simpl; [reflexivity|].
  destruct (p x) eqn:Hp.
  - rewrite (Himp x Hp). simpl. rewrite Hp. reflexivity.
  - destruct (keep x); simpl; [rewrite Hp|]; exact IH.
Qed.

Lemma find_app_last {A} (p : A -> bool) (l : list A) (x : A) :
  find p (l ++ [x]) = match find p l with
                      | Some y => Some y
                      | None => if p x then Some x else None
                      end.
Proof.
  induction l as [|y l IH]; simpl; [reflexivity|].
  destruct (p y); [reflexivity | exact IH].
Qed.

Lemma find_filter_excluded {A} (p : A -> bool) (l : list A) :
  find p (filter (fun x => negb (p x)) l) = None.
Proof.
  induction l as [|x l IH]; simpl; [reflexivity|].
  destruct (p x) eqn:Hp; simpl; [|rewrite Hp]; exact IH.
Qed.

(** X10. Saving then looking up: where the foreign key allows the save
    (it is not enforced, or the address is tracked), [SaveTransaction]
    succeeds, the record stored under the (hash, address) of the saved
    one is then the saved one under a new id, whatever was stored under
    that pair before, it is the only row with that pair, and the record
    stored under any other pair is as before. *)
Theorem save_then_lookup tx r :
  foreign_keys r = false \/ tracked (Transaction.Address tx) r ->
  let r' := snd (SaveTransaction tx r) in
  fst (SaveTransaction tx r) = Ok tt /\
  stored (Transaction.Hash tx) (Transaction.Address tx) r'
  = Some (with_id (transactions_seq r + 1) tx) /\
  TransactionExists (Transaction.Hash tx) (Transaction.Address tx) r' = Ok true /\
  filter (has_key (Transaction.Hash tx) (Transaction.Address tx)) (transactions r')
  = [with_id (transactions_seq r + 1) tx] /\
  (forall hash address,
     (hash, address) <> key tx -> stored hash address r' = stored hash address r).
Proof.
  intros Hfk r'. subst r'. unfold SaveTransaction.
  assert (foreign_keys r && negb (has_address (Transaction.Address tx) r) = false) as ->.
  { destruct Hfk as [-> | ->]; [reflexivity | apply andb_false_r]. }
  cbn [fst snd]. unfold stored. cbn [transactions].
  set (mine := has_key (Transaction.Hash tx) (Transaction.Address tx)).
  set (new := with_id (transactions_seq r + 1) tx).
  assert (mine new = true) as Hnew.
  { subst mine new. apply has_key_iff. reflexivity. }
  assert (filter mine (filter (fun t => negb (mine t)) (transactions r) ++ [new]) = [new])
    as Hone.
  { rewrite filter_app. simpl. rewrite Hnew.
    rewrite filter_none; [reflexivity|].
    apply Forall_forall. intros t Hin. apply filter_In in Hin.
    destruct Hin as [_ Hneg]. apply negb_true_iff. exact Hneg. }
  split; [reflexivity|]. split; [|split; [|split]].
  - rewrite find_app_last, find_filter_excluded, Hnew. reflexivity.
  - unfold TransactionExists. cbn [transactions]. fold mine. rewrite Hone. reflexivity.
  - exact Hone.
  - intros hash address Hneq. rewrite find_app_last.
    assert (has_key hash address new = false) as ->.
    { apply has_key_false_iff. subst new. rewrite key_with_id. congruence. }
    rewrite find_filter_implied.
    + destruct (find (has_key hash address) (transactions r)); reflexivity.
    + intros t Ht. apply negb_true_iff. subst mine. apply has_key_false_iff.
      apply has_key_iff in Ht. unfold key in *. congruence.
Qed.

Lemma save_then_lookup_witness :
  (foreign_keys h3_unconfirmed = false \/ tracked addrA h3_unconfirmed) /\
  let tx := clients.classify addrA (event "h3" 100000000 800020 30) in
  let r' := snd (SaveTransaction tx h3_unconfirmed) in
  stored "h3" addrA h3_unconfirmed
  = Some (Transaction.Build 1 "h3" addrA 100000000 0 0 30 "received") /\
  fst (SaveTransaction tx h3_unconfirmed) = Ok tt /\
  stored "h3" addrA r'
  = Some (Transaction.Build 2 "h3" addrA 100000000 6 800020 30 "received") /\
  TransactionExists "h3" addrA r' = Ok true /\
  filter (has_key "h3" addrA) (transactions r')
  = [Transaction.Build 2 "h3" addrA 100000000 6 800020 30 "received"] /\
  (forall hash address,
     (hash, address) <> key tx -> stored hash address r' = stored hash address h3_unconfirmed).
Proof.
  assert (foreign_keys h3_unconfirmed = false \/ tracked addrA h3_unconfirmed) as H
      by (left; reflexivity).
  split; [exact H|]. split; [reflexivity|].
  exact (save_then_lookup (clients.classify addrA (event "h3" 100000000 800020 30))
           h3_unconfirmed H).
Defined.

(** X11. [UpdateLastSynced] never fails and writes nothing but the
    watermark of its address: the transactions, the tracked addresses and
    the watermark of every other address are as before; for an address
    that is not tracked, for one removed in the meantime say, the whole
    database is as before. *)
Theorem mark_synced_only_sets_one_watermark address syncTime r :
  let r' := snd (UpdateLastSynced address syncTime r) in
  fst (UpdateLastSynced address syncTime r) = Ok tt /\
  transactions r' = transactions r /\
  (forall a, tracked a r' <-> tracked a r) /\
  (forall other, other <> address -> last_synced other r' = last_synced other r) /\
  (tracked address r -> last_synced address r' = Some syncTime) /\
  (has_address address r = false -> r' = r).
Proof.
  intros r'. subst r'. split; [reflexivity|]. split; [reflexivity|].
  split; [|split; [|split]].
  - intros a. unfold tracked. rewrite has_address_UpdateLastSynced. tauto.
  - intros other Hneq. rewrite !last_synced_option. simpl.
    rewrite last_synced_other by exact Hneq. reflexivity.
  - apply last_synced_updated.
  - intros Hno. simpl.
    assert (map (set_last_synced address syncTime) (addresses r) = addresses r) as ->.
    { unfold has_address in Hno. induction (addresses r) as [|a l IH]; [reflexivity|].
      simpl in *. apply orb_false_iff in Hno. destruct Hno as [Ha Hl].
      rewrite (IH Hl). unfold set_last_synced. rewrite Ha. reflexivity. }
    destruct r; reflexivity.
Qed.

(** X12. The balance of an address with no stored record is zero in all
    its parts, for a tracked address (one just registered, or one whose
    synchronisations all failed) as for any other: the aggregate of no
    row is 0, not an error. *)
Theorem balance_of_no_record_is_zero address r :
  records_of address r = [] ->
  repository.GetBalance address r = Ok (Balance.Build address 0 0 0 (S754_zero false)) /\
  (tracked address r ->
   services.GetBalance address r = Ok (Balance.Build address 0 0 0 (S754_zero false))).
Proof.
  intros Hnone.
  assert (repository.GetBalance address r
          = Ok (Balance.Build address 0 0 0 (S754_zero false))) as Hrepo.
  { unfold GetBalance, CalculateBalance.
    rewrite (no_record_filter (confirmed_of address) address r), 
            (no_record_filter (unconfirmed_of address) address r); auto.
    - unfold unconfirmed_of. intros t H. apply andb_true_iff in H. tauto.
    - unfold confirmed_of. intros t H. apply andb_true_iff in H. tauto. }
  split; [exact Hrepo|].
  intros Htracked. unfold services.GetBalance.
  apply GetAddress_tracked in Htracked. destruct Htracked as [a ->]. exact Hrepo.
Qed.

Lemma balance_of_no_record_is_zero_witness :
  records_of addrB synced_three = [] /\
  repository.GetBalance addrB synced_three
  = Ok (Balance.Build addrB 0 0 0 (S754_zero false)) /\
  (tracked addrB synced_three ->
   services.GetBalance addrB synced_three
   = Ok (Balance.Build addrB 0 0 0 (S754_zero false))).
Proof.
  assert (records_of addrB synced_three = []) as H by reflexivity.
  split; [exact H|].
  exact (balance_of_no_record_is_zero addrB synced_three H).
Defined.

(** ** Listings *)






(** X14. The listing of the addresses holds every row of [addresses]
    once, the one created last first; in a reachable state no address is
    listed twice. *)
Theorem addresses_listed_newest_first r :
  exists entries,
    services.GetAllAddresses r = Ok entries /\
    Permutation (map AddressWithBalance.Address entries) (addresses r) /\
    descending Address.CreatedAt (map AddressWithBalance.Address entries) /\
    (unique_addresses r ->
     NoDup (map (fun entry => Address.Address (AddressWithBalance.Address entry)) entries)).
Proof.
  exists (map (services.with_balance r) (order_by_desc Address.CreatedAt (addresses r))).
  assert (map AddressWithBalance.Address
            (map (services.with_balance r) (order_by_desc Address.CreatedAt (addresses r)))
          = order_by_desc Address.CreatedAt (addresses r)) as Hmap.
  { rewrite map_map. simpl. apply map_id. }
  split; [reflexivity|]. rewrite Hmap.
  split; [apply order_by_desc_Permutation|]. split; [apply order_by_desc_descending|].
  intros Hunique.
  rewrite <- (map_map AddressWithBalance.Address Address.Address), Hmap.
  apply (Permutation_NoDup (l := map Address.Address (addresses r))); [|exact Hunique].
  apply Permutation_map, Permutation_sym, order_by_desc_Permutation.
Qed.

(** X15. The details of one address and the listing agree: when
    [GetAddress] answers, its answer is the address asked for with the
    balance of the repository, and it is an entry of [GetAllAddresses].
    They differ when the balance fails: [GetAddress] then fails with the
    error of the balance, where the listing puts zeros. *)
Theorem address_details_agree_with_listing address r :
  (forall entry,
     services.GetAddress address r = Ok entry ->
     Address.Address (AddressWithBalance.Address entry) = address /\
     repository.GetBalance address r = Ok (AddressWithBalance.Balance entry) /\
     exists entries, services.GetAllAddresses r = Ok entries /\ In entry entries) /\
  (forall e,
     tracked address r -> repository.GetBalance address r = Err e ->
     services.GetAddress address r = Err (Wrap "failed to get balance" e)).
Proof.
  split.
  - intros entry Hget. unfold services.GetAddress in Hget.
    destruct (GetAddress address r) as [addr|e] eqn:Haddr; [|discriminate].
    destruct (GetBalance address r) as [balance|e] eqn:Hbal; [|discriminate].
    injection Hget as <-. simpl.
    unfold GetAddress in Haddr.
    destruct (find (is_address address) (addresses r)) as [row|] eqn:Hfind; [|discriminate].
    injection Haddr as ->. apply find_some in Hfind. destruct Hfind as [Hin Hrow].
    unfold is_address in Hrow. apply String.eqb_eq in Hrow.
    split; [exact Hrow|]. split; [reflexivity|].
    eexists. split; [reflexivity|].
    apply in_map_iff. exists addr. split.
    + unfold services.with_balance. rewrite Hrow, Hbal. reflexivity.
    + apply (Permutation_in addr
               (Permutation_sym (order_by_desc_Permutation Address.CreatedAt (addresses r)))).
      exact Hin.
  - intros e Htracked Hbal. unfold services.GetAddress.
    apply GetAddress_tracked in Htracked. destruct Htracked as [a ->].
    rewrite Hbal. reflexivity.
Qed.

(** The two answers for an address whose balance overflows. *)
Example details_fail_where_listing_puts_zero :
  services.GetAddress addrB two_tracked
  = Err (Wrap "failed to get balance"
           (Wrap "failed to calculate confirmed balance" (SqlError IntegerOverflow))) /\
  option_map (map (fun entry => Balance.TotalBalance (AddressWithBalance.Balance entry)))
    (match services.GetAllAddresses two_tracked with Ok l => Some l | Err _ => None end)
  = Some [0; 400000000].
Proof. split; reflexivity. Qed.

(** ** What the program keeps true of its rows *)

Section ServiceInvariant.

Variable client : clients.BitcoinClient.
Variable Pa : string -> Prop.
Variable Pt : Transaction.t -> Prop.

Hypothesis Pt_with_id : forall id tx, Pt tx -> Pt (with_id id tx).
Hypothesis fetched_Pt :
  forall address limit fetched,
    clients.GetTransactions client address limit = Ok fetched -> Forall Pt fetched.
Hypothesis valid_Pa :
  forall address, clients.IsValidAddress client address = true -> Pa address.

Lemma SaveTransaction_holds tx r :
  Pt tx -> holds_of_rows Pa Pt r -> holds_of_rows Pa Pt (snd (SaveTransaction tx r)).
Proof.
  unfold holds_of_rows, SaveTransaction. intros Htx [Ha Ht].
  destruct (_ && _); simpl; [auto|]. split; [exact Ha|].
  apply Forall_app. split; [apply Forall_filter_keep; exact Ht|].
  repeat constructor. apply Pt_with_id. exact Htx.
Qed.

Lemma save_new_holds address fetched : forall n r,
  Forall Pt fetched -> holds_of_rows Pa Pt r ->
  holds_of_rows Pa Pt (snd (services.save_new address fetched n r)).
Proof.
  induction fetched as [|tx rest IH]; intros n r Hfetched Hr; [exact Hr|].
  inversion Hfetched as [|? ? Htx Hrest]; subst.
  rewrite save_new_cons. destruct (0 <? _); [apply IH; assumption|].
  pose proof (SaveTransaction_holds tx r Htx Hr) as Hsave.
  destruct (SaveTransaction tx r) as [[u|e] r1]; simpl in *; [|exact Hsave].
  apply IH; assumption.
Qed.

Lemma SyncAddress_holds address now r :
  holds_of_rows Pa Pt r ->
  holds_of_rows Pa Pt (snd (services.SyncAddress client address now r)).
Proof.
  intros Hr. rewrite SyncAddress_unfold.
  destruct (GetAddress address r); [|exact Hr].
  destruct (clients.GetTransactions client address 100) as [fetched|e] eqn:Hfetch; [|exact Hr].
  pose proof (save_new_holds address fetched 0 r (fetched_Pt _ _ _ Hfetch) Hr) as Hsaved.
  destruct (services.save_new address fetched 0 r) as [[n|e] r1]; simpl in *; [|exact Hsaved].
  unfold holds_of_rows in *. simpl. rewrite set_last_synced_address. exact Hsaved.
Qed.

Lemma sync_each_holds now addrs : forall errors r,
  holds_of_rows Pa Pt r ->
  holds_of_rows Pa Pt (snd (services.sync_each client now addrs errors r)).
Proof.
  induction addrs as [|addr rest IH]; intros errors r Hr; simpl; [exact Hr|].
  pose proof (SyncAddress_holds (Address.Address addr) (now (Address.Address addr)) r Hr) as H.
  destruct (services.SyncAddress client _ _ r) as [[n|e] r1]; simpl in H; apply IH; exact H.
Qed.

Lemma run_holds op r :
  holds_of_rows Pa Pt r -> holds_of_rows Pa Pt (run client op r).
Proof.
  intros Hr. destruct op; simpl.
  - unfold services.AddAddress.
    destruct (clients.IsValidAddress client address) eqn:Hvalid; simpl; [|exact Hr].
    destruct (GetAddress address r); [exact Hr|].
    unfold repository.AddAddress.
    destruct (has_address address r); simpl; [exact Hr|].
    apply SyncAddress_holds. unfold holds_of_rows in *. simpl.
    rewrite map_app, Forall_app. simpl. intuition.
  - unfold services.RemoveAddress, RemoveAddress, delete_address.
    unfold holds_of_rows in *. destruct Hr as [Ha Ht].
    assert (Forall Pa (map Address.Address
                         (filter (fun a => negb (is_address address a)) (addresses r)))) as Ha'.
    { rewrite Forall_forall in *. intros a Hin. apply Ha.
      apply in_map_iff in Hin. destruct Hin as [row [<- Hin]].
      apply in_map. apply filter_In in Hin. tauto. }
    destruct (_ =? 0); simpl; (split; [exact Ha'|]);
      destruct (_ && _); try apply Forall_filter_keep; exact Ht.
  - apply SyncAddress_holds. exact Hr.
  - unfold services.SyncAllAddresses, bind, annotate, query. simpl.
    pose proof (sync_each_holds now (order_by_desc Address.CreatedAt (addresses r)) [] r Hr)
      as H.
    destruct (services.sync_each client now _ [] r) as [[errors|e] r1]; simpl in *; [|exact H].
    destruct (0 <? _); exact H.
Qed.

End ServiceInvariant.

Lemma IsValidAddress_well_formed address :
  clients.BlockchairClient_IsValidAddress address = true <-> well_formed_address address.
Proof.
  unfold clients.BlockchairClient_IsValidAddress, well_formed_address.
  destruct ((Z.of_nat (String.length address) <? 26)
            || (62 <? Z.of_nat (String.length address))) eqn:Hlen.
  - split; [discriminate|]. intros [Hrange _].
    apply orb_true_iff in Hlen. destruct Hlen as [H|H]; apply Z.ltb_lt in H; lia.
  - apply orb_false_iff in Hlen. destruct Hlen as [H1 H2].
    apply Z.ltb_ge in H1, H2. cbn [existsb]. rewrite orb_false_r, !orb_true_iff.
    split; [intros H | intros [_ H]]; [split; [lia|]|]; tauto.
Qed.

Lemma classify_well_classified address ev :
  well_classified (clients.classify address ev).
Proof.
  unfold well_classified, clients.classify. simpl.
  destruct (BlockchairTransaction.BlockID ev =? 0) eqn:Hb;
    [apply Z.eqb_eq in Hb | apply Z.eqb_neq in Hb];
    (destruct (BlockchairTransaction.BalanceChange ev <? 0) eqn:Hc;
     [apply Z.ltb_lt in Hc | apply Z.ltb_ge in Hc]);
    (split; [auto|]; split; [split; intros; (lia || discriminate || auto) | auto]).
Qed.

Lemma served_holds r :
  served r -> holds_of_rows well_formed_address well_classified r.
Proof.
  induction 1 as [|httpGet op r _ IH].
  - split; constructor.
  - apply run_holds; [| | |exact IH].
    + intros id tx H. exact H.
    + intros address limit fetched Hfetch. simpl in Hfetch.
      unfold clients.BlockchairClient_GetTransactions in Hfetch.
      destruct (httpGet address limit) as [|status [events|]]; try discriminate;
        destruct (negb (status =? 200)); try discriminate.
      injection Hfetch as <-. apply Forall_forall. intros tx Hin.
      apply in_map_iff in Hin. destruct Hin as [ev [<- _]]. apply classify_well_classified.
    + intros address Hvalid. apply IsValidAddress_well_formed. exact Hvalid.
Qed.

Lemma served_steps r : served r -> steps NewSQLiteRepository r.
Proof.
  induction 1 as [|httpGet op r _ IH]; [constructor|].
  eapply steps_trans; [exact IH | apply run_steps].
Qed.

Lemma two_tracked_served : served two_tracked.
Proof. unfold two_tracked. apply (served_run _ (OpAddAddress _ _ _ _)).
  apply (served_run _ (OpAddAddress _ _ _ _)). constructor. Qed.

(** X16. Every address the program tracks passed the format check of the
    adapter when it was registered: in every state of the program each
    row of [addresses] has an address of 26 to 62 bytes that starts with
    1, 3 or bc1. *)
Theorem tracked_addresses_are_well_formed r :
  served r ->
  forall address, tracked address r -> well_formed_address address.
Proof.
  intros Hserved address Htracked.
  destruct (served_holds r Hserved) as [Ha _].
  rewrite Forall_forall in Ha. apply Ha. apply has_address_true_iff. exact Htracked.
Qed.

Lemma tracked_addresses_are_well_formed_witness :
  served two_tracked /\
  tracked addrB two_tracked /\
  forall address, tracked address two_tracked -> well_formed_address address.
Proof.
  split; [exact two_tracked_served|]. split; [reflexivity|].
  exact (tracked_addresses_are_well_formed two_tracked two_tracked_served).
Defined.

(** X17. Every record the program stores is as the adapter classified
    it: in every state of the program each row of [transactions] has 0 or
    6 confirmations, has none exactly when its block height is 0, and is
    "sent" with a negative amount or "received" with an amount that is
    not negative; and the connection never enforces foreign keys. *)
Theorem stored_records_are_classified r :
  served r ->
  Forall well_classified (transactions r) /\ foreign_keys r = false.
Proof.
  intros Hserved. split.
  - apply (served_holds r Hserved).
  - apply (steps_foreign_keys NewSQLiteRepository r). apply served_steps. exact Hserved.
Qed.

Lemma stored_records_are_classified_witness :
  served two_tracked /\
  List.length (transactions two_tracked) = 5%nat /\
  Forall well_classified (transactions two_tracked) /\ foreign_keys two_tracked = false.
Proof.
  split; [exact two_tracked_served|]. split; [reflexivity|].
  exact (stored_records_are_classified two_tracked two_tracked_served).
Defined.

Lemma recompute_covers address rows :
  Forall well_classified rows ->
  recompute address (fun c => 1 <=? c) rows + recompute address (fun c => c =? 0) rows
  = total (map Transaction.Amount (filter (of_address address) rows)).
Proof.
  induction 1 as [|t rows Ht _ IH]; simpl; [reflexivity|].
  unfold of_address at 1.
  destruct (Transaction.Address t =? address)%string; simpl; [|exact IH].
  destruct Ht as [[H0 | H6] _]; rewrite ?H0, ?H6; simpl; lia.
Qed.

(** X18. In a state of the program every record of an address is either
    confirmed or unconfirmed, so the total balance of a tracked address
    is the sum of the amounts of all its records (for stored amounts
    within the range of int64). *)
Theorem total_balance_sums_all_records address r :
  served r ->
  tracked address r ->
  magnitude (map Transaction.Amount (records_of address r)) <= max_int64 ->
  exists balance,
    services.GetBalance address r = Ok balance /\
    Balance.TotalBalance balance = total (map Transaction.Amount (records_of address r)) /\
    Balance.TotalBalance balance
    = Balance.ConfirmedBalance balance + Balance.UnconfirmedBalance balance.
Proof.
  intros Hserved Htracked Hrange.
  destruct (CalculateBalance_exact address r Hrange) as (_ & _ & _ & Hbal).
  eexists. split.
  - unfold services.GetBalance. apply GetAddress_tracked in Htracked.
    destruct Htracked as [a ->]. exact Hbal.
  - simpl. split; [|reflexivity].
    apply recompute_covers. apply (served_holds r Hserved).
Qed.

Lemma total_balance_sums_all_records_witness :
  served two_tracked /\
  tracked addrA two_tracked /\
  magnitude (map Transaction.Amount (records_of addrA two_tracked)) <= max_int64 /\
  total (map Transaction.Amount (records_of addrA two_tracked)) = 400000000 /\
  exists balance,
    services.GetBalance addrA two_tracked = Ok balance /\
    Balance.TotalBalance balance
    = total (map Transaction.Amount (records_of addrA two_tracked)) /\
    Balance.TotalBalance balance
    = Balance.ConfirmedBalance balance + Balance.UnconfirmedBalance balance.
Proof.
  assert (tracked addrA two_tracked) as H1 by reflexivity.
  assert (magnitude (map Transaction.Amount (records_of addrA two_tracked)) <= max_int64)
    as H2 by (vm_compute; discriminate).
  split; [exact two_tracked_served|]. split; [exact H1|]. split; [exact H2|].
  split; [reflexivity|].
  exact (total_balance_sums_all_records addrA two_tracked two_tracked_served H1 H2).
Defined.

(** ** The responses of the API *)

(** The cases of the tests of package models. *)
Example TestErrorResponse :
  APIResponse.Success (models.ErrorResponse (APIResponse.Literal "test error")) = false /\
  APIResponse.Error (models.ErrorResponse (APIResponse.Literal "test error"))
  = APIResponse.Literal "test error".
Proof. split; reflexivity. Qed.

Example TestSuccessResponse :
  APIResponse.Success (models.SuccessResponse (APIResponse.HealthData [("key", "value")]))
  = true /\
  APIResponse.Data (models.SuccessResponse (APIResponse.HealthData [("key", "value")]))
  <> None.
Proof. split; [reflexivity | discriminate]. Qed.

Example TestMessageResponse :
  APIResponse.Success (models.MessageResponse "test message") = true /\
  APIResponse.Message (models.MessageResponse "test message") = "test message".
Proof. split; reflexivity. Qed.

Ltac coherent_response :=
  unfold coherent, BitcoinHandler.writeError, BitcoinHandler.writeSuccess,
    BitcoinHandler.writeMessage, models.ErrorResponse, models.SuccessResponse,
    models.MessageResponse;
  cbn [fst snd APIResponse.Success APIResponse.Error APIResponse.Data APIResponse.Message In];
  repeat split; intros; try discriminate; try reflexivity; try lia; auto 10;
  try (match goal with H : _ \/ _ |- _ => destruct H; discriminate end).

(** X19. Every answer of the API is coherent, for every routed request,
    every client and every database: the status code is 200, 201, 400,
    404 or 500; the body says success exactly when the code is 200 or
    201; a body that says success has no error text, and one that does
    not has an error text and neither data nor message. *)
Theorem responses_are_coherent client req r :
  coherent (fst (BitcoinHandler.setupRoutes client req r)).
Proof.
  destruct req; simpl.
  - coherent_response.
  - unfold BitcoinHandler.GetAllAddresses.
    destruct (services.GetAllAddresses r); coherent_response.
  - unfold BitcoinHandler.AddAddress. destruct body as [req|]; [|coherent_response].
    destruct (AddAddressRequest.Address req =? "")%string; [coherent_response|].
    destruct (services.AddAddress client _ _ created_at now r) as [[a|e] r'];
      coherent_response.
  - unfold BitcoinHandler.GetAddress.
    destruct (address =? "")%string; [coherent_response|].
    destruct (services.GetAddress address r); coherent_response.
  - unfold BitcoinHandler.RemoveAddress.
    destruct (address =? "")%string; [coherent_response|].
    destruct (services.RemoveAddress address r) as [[u|e] r']; coherent_response.
  - unfold BitcoinHandler.GetBalance.
    destruct (address =? "")%string; [coherent_response|].
    destruct (services.GetBalance address r); coherent_response.
  - unfold BitcoinHandler.GetTransactions.
    destruct (address =? "")%string; [coherent_response|].
    destruct (handlers.pagination limitParam offsetParam) as [limit offset].
    destruct (services.GetTransactions address limit offset r); coherent_response.
  - unfold BitcoinHandler.SyncAddress.
    destruct (address =? "")%string; [coherent_response|].
    destruct (services.SyncAddress client address now r) as [[n|e] r']; coherent_response.
  - unfold BitcoinHandler.SyncAllAddresses.
    destruct (services.SyncAllAddresses client now r) as [[u|e] r']; coherent_response.
Qed.



